(** * The AI-detection scoring engine of [src/lib/aiDetection.ts]

    A shallow embedding of the TypeScript module: JavaScript strings are
    sequences of UTF-16 code units, numbers are IEEE 754 binary64 values
    (Rocq's primitive floats), regular expressions are syntax trees run by a
    backtracking matcher that follows the ECMAScript pattern semantics, and
    the module-level pattern tables are a store that [RegExp.prototype.test]
    updates through [lastIndex]. *)

From Stdlib Require Import List Bool Arith NArith ZArith Lia String Ascii.
From Stdlib Require Import Floats Uint63.
Import ListNotations.

Set Warnings "-inexact-float".

Open Scope string_scope.
Open Scope list_scope.

(** ** JavaScript strings *)

Module JsString.

(** A code unit of a JavaScript string. *)
Definition cu := N.

(** A JavaScript string. *)
Definition t := list cu.

(** The string written with ASCII characters [s]. *)
Definition str (s : string) : t := map N_of_ascii (list_ascii_of_string s).

Definition LF : cu := 10%N.

(** ECMAScript [WhiteSpace] and [LineTerminator] code points: what
    [String.prototype.trim] strips and what the class escape [\s] matches. *)
Definition is_space (c : cu) : bool :=
  ((9 <=? c) && (c <=? 13) || (c =? 32) || (c =? 160) || (c =? 5760)
   || (8192 <=? c) && (c <=? 8202) || (c =? 8232) || (c =? 8233)
   || (c =? 8239) || (c =? 8287) || (c =? 12288) || (c =? 65279))%N.

(** ECMAScript [LineTerminator]: what [.] refuses and where a multiline [$]
    holds. *)
Definition is_line_terminator (c : cu) : bool :=
  ((c =? 10) || (c =? 13) || (c =? 8232) || (c =? 8233))%N.

Definition is_digit (c : cu) : bool := ((48 <=? c) && (c <=? 57))%N.

Definition is_upper (c : cu) : bool := ((65 <=? c) && (c <=? 90))%N.

Definition is_lower (c : cu) : bool := ((97 <=? c) && (c <=? 122))%N.

(** The class escape [\w]: [A-Za-z0-9_]. *)
Definition is_word (c : cu) : bool :=
  is_upper c || is_lower c || is_digit c || (c =? 95)%N.

(** The other ASCII case of a letter, the code unit itself otherwise. *)
Definition swap_case (c : cu) : cu :=
  if is_upper c then (c + 32)%N else if is_lower c then (c - 32)%N else c.

Fixpoint drop_space (s : t) : t :=
  match s with
  | c :: r => if is_space c then drop_space r else s
  | [] => []
  end.

(** [s.trim()] *)
Definition trim (s : t) : t := rev (drop_space (rev (drop_space s))).

(** Truthiness of a string: it is not empty. *)
Definition truthy (s : t) : bool :=
  match s with [] => false | _ :: _ => true end.

Fixpoint eqb (a b : t) : bool :=
  match a, b with
  | [], [] => true
  | x :: a', y :: b' => (x =? y)%N && eqb a' b'
  | _, _ => false
  end.

(** [s.startsWith(p)] *)
Fixpoint startsWith (s p : t) : bool :=
  match p, s with
  | [], _ => true
  | x :: p', y :: s' => (x =? y)%N && startsWith s' p'
  | _ :: _, [] => false
  end.

(** [s.split(sep)] for a one-unit separator: [cur] holds, reversed, the
    piece being read. *)
Fixpoint split_from (sep : cu) (cur : t) (s : t) : list t :=
  match s with
  | [] => [rev cur]
  | c :: r =>
      if (c =? sep)%N then rev cur :: split_from sep [] r
      else split_from sep (c :: cur) r
  end.

Definition split (sep : cu) (s : t) : list t := split_from sep [] s.

(** [pieces.join(sep)] *)
Fixpoint join (sep : cu) (pieces : list t) : t :=
  match pieces with
  | [] => []
  | [p] => p
  | p :: ps => p ++ sep :: join sep ps
  end.

End JsString.

(** ** Regular expressions *)

Module RegExp.

Import JsString.

(** The members of a character class. *)
Inductive cset :=
| CEmpty
| CChar (c : cu)
| CSpace                      (* \s *)
| CNotSpace                   (* \S *)
| CWord                       (* \w *)
| CDigit                      (* \d *)
| CLineTerminator
| CUnion (a b : cset).

(** The class of the ASCII characters of [s]. *)
Fixpoint chars_of (l : list cu) : cset :=
  match l with
  | [] => CEmpty
  | [c] => CChar c
  | c :: r => CUnion (CChar c) (chars_of r)
  end.

Definition chars (s : string) : cset := chars_of (str s).

Inductive regex :=
| Empty
| Class (invert : bool) (A : cset)          (* [A], [^A], a literal, [.] *)
| Seq (a b : regex)
| Alt (a b : regex)                         (* a|b *)
| Repeat (greedy : bool) (min : nat) (a : regex)   (* a{min,} and a{min,}? *)
| Group (n : nat) (a : regex)               (* the n-th ( ) *)
| Backref (n : nat)                         (* \n *)
| WordBoundary                              (* \b *)
| LineStart                                 (* ^ *)
| LineEnd.                                  (* $ *)

Definition Lit (c : string) : regex := Class false (chars c).
Definition Dot : regex := Class true CLineTerminator.
Definition Star (a : regex) : regex := Repeat true 0 a.
Definition Plus (a : regex) : regex := Repeat true 1 a.

(** The pattern that matches the characters of [s] in a row. *)
Fixpoint lits (l : list cu) : regex :=
  match l with
  | [] => Empty
  | [c] => Class false (CChar c)
  | c :: r => Seq (Class false (CChar c)) (lits r)
  end.

Definition Word (s : string) : regex := lits (str s).

(** [w1|w2|...] *)
Fixpoint AltWords (ws : list string) : regex :=
  match ws with
  | [] => Empty
  | [w] => Word w
  | w :: r => Alt (Word w) (AltWords r)
  end.

Fixpoint cset_mem (A : cset) (c : cu) : bool :=
  match A with
  | CEmpty => false
  | CChar a => (a =? c)%N
  | CSpace => is_space c
  | CNotSpace => negb (is_space c)
  | CWord => is_word c
  | CDigit => is_digit c
  | CLineTerminator => is_line_terminator c
  | CUnion a b => cset_mem a c || cset_mem b c
  end.

(** CharacterSetMatcher's test: some member of [A] has the canonical form of
    [c].  Without the [i] flag Canonicalize is the identity; with it, it maps
    a code unit to its upper case unless that would turn a non-ASCII unit into
    an ASCII one, so an ASCII member is reached from its two cases only.  The
    patterns of this module that carry [i] have ASCII classes only. *)
Definition class_found (ignoreCase : bool) (A : cset) (c : cu) : bool :=
  cset_mem A c || ignoreCase && cset_mem A (swap_case c).

Definition canon_eq (ignoreCase : bool) (a c : cu) : bool :=
  (a =? c)%N || ignoreCase && (a =? swap_case c)%N.

(** The state of a match: the index reached, the code unit before it, the
    rest of the input, and the captures made so far. *)
Record mstate := MState {
  endIndex : nat;
  before : option cu;
  rest : t;
  captures : list (nat * t)
}.

Fixpoint get_capture (n : nat) (caps : list (nat * t)) : option t :=
  match caps with
  | [] => None
  | (m, s) :: r => if Nat.eqb m n then Some s else get_capture n r
  end.

(** The groups of a pattern: a quantifier resets them at each iteration. *)
Fixpoint groups (a : regex) : list nat :=
  match a with
  | Seq a b | Alt a b => groups a ++ groups b
  | Repeat _ _ a => groups a
  | Group n a => n :: groups a
  | _ => []
  end.

Definition reset_captures (gs : list nat) (caps : list (nat * t)) :=
  filter (fun p => negb (existsb (Nat.eqb (fst p)) gs)) caps.

(** The input from [x] on starts with [s] (up to case under [i]): the state
    after it. *)
Fixpoint eat (ignoreCase : bool) (s : t) (x : mstate) : option mstate :=
  match s with
  | [] => Some x
  | a :: s' =>
      match rest x with
      | c :: r =>
          if canon_eq ignoreCase a c
          then eat ignoreCase s'
                 (MState (S (endIndex x)) (Some c) r (captures x))
          else None
      | [] => None
      end
  end.

Definition word_before (x : mstate) : bool :=
  match before x with Some c => is_word c | None => false end.

Definition word_after (x : mstate) : bool :=
  match rest x with c :: _ => is_word c | [] => false end.

Section Matcher.

(** The flags [i] and [m]. *)
Variables ignoreCase multiline : bool.

Section RepeatMatcher.

(** The matcher [m] of the quantified pattern, its groups, the kind of the
    quantifier and the continuation of the whole. *)
Variable m : mstate -> (mstate -> option mstate) -> option mstate.
Variable gs : list nat.
Variable greedy : bool.
Variable k : mstate -> option mstate.

(** RepeatMatcher for a quantifier without upper bound.  An iteration that
    consumed nothing is refused once [min] is reached, so an iteration costs
    one unit of [min] or one code unit of input: [min + length (rest x) + 1]
    turns are enough, and [fuel] counts them. *)
Fixpoint repeat_matcher (fuel min : nat) (x : mstate) {struct fuel}
  : option mstate :=
  match fuel with
  | O => None
  | S fuel' =>
      let d := fun y =>
        if Nat.eqb min 0 && Nat.eqb (endIndex y) (endIndex x)
        then None
        else repeat_matcher fuel' (Nat.pred min) y in
      let xr := MState (endIndex x) (before x) (rest x)
                  (reset_captures gs (captures x)) in
      if negb (Nat.eqb min 0) then m xr d
      else if greedy then
        match m xr d with
        | Some z => Some z
        | None => k x
        end
      else
        match k x with
        | Some z => Some z
        | None => m xr d
        end
  end.

End RepeatMatcher.

(** The matcher of a pattern, in the continuation style of the ECMAScript
    definition: [run_with slack a x k] tries the alternatives of [a] at [x]
    in priority order and hands each end state to [k], until [k] succeeds.
    Every quantifier gets the turns it needs and [slack] more; the result
    does not depend on [slack]. *)
Fixpoint run_with (slack : nat) (a : regex) (x : mstate)
  (k : mstate -> option mstate) {struct a} : option mstate :=
  match a with
  | Empty => k x
  | Class invert A =>
      match rest x with
      | c :: r =>
          if xorb invert (class_found ignoreCase A c)
          then k (MState (S (endIndex x)) (Some c) r (captures x))
          else None
      | [] => None
      end
  | Seq a b => run_with slack a x (fun y => run_with slack b y k)
  | Alt a b =>
      match run_with slack a x k with
      | Some z => Some z
      | None => run_with slack b x k
      end
  | Repeat greedy min a =>
      repeat_matcher (run_with slack a) (groups a) greedy k
        (slack + (min + List.length (rest x) + 1)) min x
  | Group n a =>
      run_with slack a x (fun y =>
        k (MState (endIndex y) (before y) (rest y)
             ((n, firstn (endIndex y - endIndex x) (rest x)) :: captures y)))
  | Backref n =>
      match get_capture n (captures x) with
      | None => k x
      | Some s =>
          match eat ignoreCase s x with
          | Some y => k y
          | None => None
          end
      end
  | WordBoundary =>
      if xorb (word_before x) (word_after x) then k x else None
  | LineStart =>
      match before x with
      | None => k x
      | Some c => if multiline && is_line_terminator c then k x else None
      end
  | LineEnd =>
      match rest x with
      | [] => k x
      | c :: _ => if multiline && is_line_terminator c then k x else None
      end
  end.

Definition run : regex -> mstate -> (mstate -> option mstate)
                 -> option mstate :=
  run_with 0.

(** The match of [a] that starts at index [i], if any: its end index. *)
Definition match_at (a : regex) (i : nat) (b : option cu) (r : t)
  : option nat :=
  match run a (MState i b r []) Some with
  | Some y => Some (endIndex y)
  | None => None
  end.

(** The loop of RegExpBuiltinExec: the first index from [i] on at which [a]
    matches, with the end of that match. *)
Fixpoint search (a : regex) (i : nat) (b : option cu) (r : t)
  : option (nat * nat) :=
  match match_at a i b r with
  | Some e => Some (i, e)
  | None =>
      match r with
      | [] => None
      | c :: r' => search a (S i) (Some c) r'
      end
  end.

End Matcher.

(** A RegExp object: its pattern, its flags, and its mutable [lastIndex]. *)
Record RegExp := mkRegExp {
  source : regex;
  ignoreCase : bool;
  multiline : bool;
  global : bool;
  lastIndex : nat
}.

(** The code unit before index [i] of [s]. *)
Definition unit_before (s : t) (i : nat) : option cu :=
  match i with O => None | S j => nth_error s j end.

(** RegExpBuiltinExec: the match found from [lastIndex] on (from 0 for a
    pattern that is not global), as start and end index. *)
Definition exec_from (re : RegExp) (s : t) (i : nat) : option (nat * nat) :=
  if (List.length s <? i)%nat then None
  else search (ignoreCase re) (multiline re) (source re)
         i (unit_before s i) (skipn i s).

Definition set_lastIndex (re : RegExp) (i : nat) : RegExp :=
  mkRegExp (source re) (ignoreCase re) (multiline re) (global re) i.

(** [re.test(s)]: the answer and the object after the call.  A global pattern
    starts at its [lastIndex], leaves it at the end of the match it found and
    puts it back to 0 when it found none. *)
Definition test (re : RegExp) (s : t) : bool * RegExp :=
  if global re then
    match exec_from re s (lastIndex re) with
    | Some (_, e) => (true, set_lastIndex re e)
    | None => (false, set_lastIndex re 0)
    end
  else
    match exec_from re s 0 with
    | Some _ => (true, re)
    | None => (false, re)
    end.

(** [s.match(re)] for a pattern without [g], written in place: the first
    match from index 0, as the matched text. *)
Definition match_first (re : RegExp) (s : t) : option t :=
  match exec_from re s 0 with
  | Some (b, e) => Some (firstn (e - b) (skipn b s))
  | None => None
  end.

(** [s.match(re)] for a pattern with [g], written in place: the matches are
    collected from index 0, each search starting where the last match ended,
    one unit further after an empty match. *)
Fixpoint match_all_from (fuel : nat) (re : RegExp) (s : t) (i : nat)
  : list t :=
  match fuel with
  | O => []
  | S fuel' =>
      match exec_from re s i with
      | Some (b, e) =>
          firstn (e - b) (skipn b s)
          :: match_all_from fuel' re s (if Nat.eqb e b then S e else e)
      | None => []
      end
  end.

Definition match_all (re : RegExp) (s : t) : list t :=
  match_all_from (List.length s + 2) re s 0.

End RegExp.

(** ** Numbers *)

Module Number.

Open Scope float_scope.

(** The Number of a length or a count.  The conversion is exact below 2^53,
    and the length of an array or of a string is below that. *)
Definition of_nat (n : nat) : float :=
  PrimFloat.of_uint63 (Uint63.of_Z (Z.of_nat n)).

Definition is_neg_zero (x : float) : bool :=
  match PrimFloat.classify x with NZero => true | _ => false end.

Definition is_pos_zero (x : float) : bool :=
  match PrimFloat.classify x with PZero => true | _ => false end.

(** [Math.min(x, y)] *)
Definition min (x y : float) : float :=
  if PrimFloat.is_nan x || PrimFloat.is_nan y then nan
  else if x <? y then x
  else if y <? x then y
  else if is_neg_zero x then x else y.

(** [Math.max(x, y)] *)
Definition max (x y : float) : float :=
  if PrimFloat.is_nan x || PrimFloat.is_nan y then nan
  else if y <? x then x
  else if x <? y then y
  else if is_pos_zero x then x else y.

End Number.

(** ** The engine *)

Import JsString RegExp.
Open Scope float_scope.

Record LineAnalysis := mkLineAnalysis {
  content : JsString.t;
  isAI : bool;
  confidence : float;
  reasons : list string
}.

Record AnalysisResult := mkAnalysisResult {
  totalLines : nat;
  aiLines : nat;
  humanLines : nat;
  aiPercentage : float;
  humanPercentage : float;
  overallConfidence : float;
  lineAnalysis : list LineAnalysis
}.

Record DetectionPattern := mkDetectionPattern {
  pattern : RegExp;
  weight : float;
  reason : string;
  aiIndicator : bool
}.

(** A regex literal: its [lastIndex] starts at 0. *)
Definition literal (a : regex) (g i m : bool) : RegExp := mkRegExp a i m g 0.

Fixpoint Seqs (l : list regex) : regex :=
  match l with
  | [] => Empty
  | [a] => a
  | a :: r => Seq a (Seqs r)
  end.

Definition space : regex := Class false CSpace.
Definition word_char : regex := Class false CWord.
Definition digit : regex := Class false CDigit.
Definition tab : regex := Class false (CChar 9%N).

(** The comment pattern, with the flags [gm]: a block comment (the body
    taken lazily from any characters) or a line comment up to the end of
    its line. *)
Definition comment_regex : regex :=
  Alt (Seqs [Word "/*"; Repeat false 0 (Class false (CUnion CSpace CNotSpace));
             Word "*/"])
      (Seqs [Word "//"; Star Dot; LineEnd]).

Definition generic_name_regex : regex :=
  Seqs [WordBoundary;
        Group 1 (AltWords ["result"; "response"; "data"; "item"; "element";
                           "value"; "temp"; "obj"; "arr"]);
        Star digit; WordBoundary].

Definition error_handling_regex : regex :=
  Group 1 (Alt (Seqs [Word "try"; Star space; Lit "{"])
          (Alt (Seqs [Word "catch"; Star space; Lit "("])
               (Seqs [Word "finally"; Star space; Lit "{"]))).

Definition repetitive_regex : regex :=
  Seqs [Group 1 (Plus word_char); Star space; Lit "="; Star space; Backref 1].

Definition todo_regex : regex :=
  Seq (Group 1 (AltWords ["TODO"; "FIXME"; "NOTE"; "HACK"])) (Lit ":").

(** A slash, then escaped characters or characters other than slash,
    backslash and line feed, then a slash and flag letters. *)
Definition regex_literal_regex : regex :=
  Seqs [Lit "/";
        Star (Alt (Seq (Lit "\") Dot)
                  (Class true (CUnion (chars "/\") (CChar LF))));
        Lit "/"; Star (Class false (chars "gimuy"))].

Definition spacing_regex : regex :=
  Alt (Repeat true 3 space)
      (Alt (Seq tab (Plus space)) (Seq (Plus space) tab)).

Definition abbreviation_regex : regex :=
  Seqs [WordBoundary;
        Group 1 (AltWords ["btn"; "txt"; "img"; "nav"; "auth"; "admin"; "cfg";
                           "opts"; "params"; "args"; "ctx"; "req"; "res";
                           "db"; "api"]);
        WordBoundary].

Definition not_close_paren : regex := Class true (chars ")").

Definition console_log_regex : regex :=
  Seqs [Word "console.log("; Star not_close_paren; Lit ")"].

Definition function_regex : regex :=
  Seqs [Word "function"; Plus space; Plus word_char; Star space; Lit "(";
        Star not_close_paren; Lit ")"; Star space; Lit "{"].

Definition print_regex : regex :=
  Seqs [Word "print("; Star not_close_paren; Lit ")"].

Definition def_regex : regex :=
  Seqs [Word "def"; Plus space; Plus word_char; Star space; Lit "(";
        Star not_close_paren; Word "):"].

Definition type_annotation_regex : regex :=
  Seqs [Lit ":"; Star space;
        Group 1 (AltWords ["string"; "number"; "boolean"; "any"; "unknown";
                           "void"; "never"]);
        WordBoundary].

(** The module's state: the two pattern tables.  The records are constant
    but for the [lastIndex] of their RegExp objects. *)
Record Registry := mkRegistry {
  AI_PATTERNS : list DetectionPattern;
  LANGUAGE_PATTERNS : list (JsString.t * list DetectionPattern)
}.

(** The tables as the module defines them. *)
Definition initial_AI_PATTERNS : list DetectionPattern :=
  [ mkDetectionPattern (literal comment_regex true false true) 0.3
      "Contains verbose or generic comments typical of AI generation" true;
    mkDetectionPattern (literal generic_name_regex true true false) 0.4
      "Uses generic variable names common in AI-generated code" true;
    mkDetectionPattern (literal error_handling_regex true false false) 0.2
      "Contains comprehensive error handling patterns" true;
    mkDetectionPattern (literal repetitive_regex true false false) 0.3
      "Contains repetitive assignment patterns" true;
    mkDetectionPattern (literal todo_regex true true false) 0.5
      "Contains TODO/FIXME comments suggesting human planning" false;
    mkDetectionPattern (literal regex_literal_regex true false false) 0.3
      "Contains complex regex patterns" false;
    mkDetectionPattern (literal spacing_regex true false false) 0.2
      "Has inconsistent spacing typical of human editing" false;
    mkDetectionPattern (literal abbreviation_regex true true false) 0.3
      "Uses domain-specific abbreviations common in human code" false ].

Definition initial_LANGUAGE_PATTERNS
  : list (JsString.t * list DetectionPattern) :=
  [ (str "javascript",
     [ mkDetectionPattern (literal console_log_regex true false false) 0.2
         "Contains debug console.log statements" false;
       mkDetectionPattern (literal function_regex true false false) 0.1
         "Uses function declarations" true ]);
    (str "python",
     [ mkDetectionPattern (literal print_regex true false false) 0.2
         "Contains debug print statements" false;
       mkDetectionPattern (literal def_regex true false false) 0.1
         "Uses function definitions" true ]);
    (str "typescript",
     [ mkDetectionPattern (literal type_annotation_regex true false false) 0.2
         "Contains explicit type annotations" true ]) ].

Definition initial : Registry :=
  mkRegistry initial_AI_PATTERNS initial_LANGUAGE_PATTERNS.

(** *** Looking a language up *)

(** The names [LANGUAGE_PATTERNS] inherits from [Object.prototype]: the
    table is an object literal, so a key that is not its own is looked up
    there.  Each of them holds a function or an object. *)
Definition Object_prototype_names : list JsString.t :=
  map str ["constructor"; "hasOwnProperty"; "isPrototypeOf";
           "propertyIsEnumerable"; "toLocaleString"; "toString"; "valueOf";
           "__proto__"; "__defineGetter__"; "__defineSetter__";
           "__lookupGetter__"; "__lookupSetter__"].

(** What [LANGUAGE_PATTERNS[language]] evaluates to. *)
Inductive property :=
| Own (pats : list DetectionPattern)   (* an array of the table *)
| Inherited                            (* a value of Object.prototype *)
| Undefined.

Fixpoint own_property (tbl : list (JsString.t * list DetectionPattern))
  (key : JsString.t) : option (list DetectionPattern) :=
  match tbl with
  | [] => None
  | (k, v) :: r => if JsString.eqb k key then Some v else own_property r key
  end.

Definition get_property (tbl : list (JsString.t * list DetectionPattern))
  (key : JsString.t) : property :=
  match own_property tbl key with
  | Some v => Own v
  | None =>
      if existsb (JsString.eqb key) Object_prototype_names then Inherited
      else Undefined
  end.

(** The table once the RegExp objects of the array at [key] have moved. *)
Fixpoint update_property (tbl : list (JsString.t * list DetectionPattern))
  (key : JsString.t) (v : list DetectionPattern) :=
  match tbl with
  | [] => []
  | (k, w) :: r =>
      if JsString.eqb k key then (k, v) :: r
      else (k, w) :: update_property r key v
  end.

(** How a call ends. *)
Inductive error := TypeError.

Inductive completion (A : Type) :=
| Normal (a : A)
| Throw (e : error).

Arguments Normal {A} a.
Arguments Throw {A} e.

(** *** analyzeCodeStructure *)

Definition blank (line : JsString.t) : bool := negb (truthy (trim line)).

(** [line.match(/^\s*/)?.[0] || ''] *)
Definition indent_of (line : JsString.t) : JsString.t :=
  match match_first (literal (Seq LineStart (Star space)) false false false)
          line with
  | Some s => s
  | None => []
  end.

(** One turn of the indentation loop on [indentPattern] and
    [consistentIndentation]. *)
Definition indentation_step (st : JsString.t * nat) (line : JsString.t)
  : JsString.t * nat :=
  let (indentPattern, consistentIndentation) := st in
  let indent := indent_of line in
  let indentPattern :=
    if negb (truthy indentPattern) && truthy indent then indent
    else indentPattern in
  if JsString.eqb indent indentPattern || JsString.eqb indent []
     || startsWith indent indentPattern
  then (indentPattern, S consistentIndentation)
  else (indentPattern, consistentIndentation).

Definition defensive_regex : regex :=
  Group 1 (AltWords ["try"; "catch"; "throw"; "Error"; "Exception"]).

Definition analyzeCodeStructure (code : JsString.t) : float :=
  let aiScore := 0 in
  let lines := filter (fun line => truthy (trim line)) (split LF code) in
  let consistentIndentation :=
    snd (fold_left indentation_step lines ([], O)) in
  let aiScore :=
    if 0.9 <? Number.of_nat consistentIndentation
              / Number.of_nat (List.length lines)
    then aiScore + 0.3 else aiScore in
  let commentLines := match_all (literal comment_regex true false true) code in
  let commentRatio :=
    Number.of_nat (List.length commentLines)
    / Number.of_nat (List.length lines) in
  let aiScore := if 0.3 <? commentRatio then aiScore + 0.2 else aiScore in
  let errorHandlingCount :=
    List.length (match_all (literal defensive_regex true false false) code) in
  let aiScore :=
    if Number.of_nat (List.length lines) * 0.1
       <? Number.of_nat errorHandlingCount
    then aiScore + 0.2 else aiScore in
  Number.min aiScore 1.

(** *** analyzeLine *)

(** The local variables [aiScore], [humanScore] and [reasons] of
    analyzeLine. *)
Record tally := mkTally {
  aiScore : float;
  humanScore : float;
  pushed : list string
}.

Definition add_ai (w : float) (why : string) (tl : tally) : tally :=
  mkTally (aiScore tl + w) (humanScore tl) (pushed tl ++ [why]).

Definition add_human (w : float) (why : string) (tl : tally) : tally :=
  mkTally (aiScore tl) (humanScore tl + w) (pushed tl ++ [why]).

(** The body of the two pattern loops once the pattern matched. *)
Definition record_match (p : DetectionPattern) (tl : tally) : tally :=
  if aiIndicator p then add_ai (weight p) (reason p) tl
  else add_human (weight p) (reason p) tl.

Definition with_pattern (p : DetectionPattern) (re : RegExp)
  : DetectionPattern :=
  mkDetectionPattern re (weight p) (reason p) (aiIndicator p).

(** [for (const pattern of pats) if (pattern.pattern.test(content)) ...]:
    the patterns after the tests, and the tally. *)
Fixpoint apply_patterns (pats : list DetectionPattern) (content : JsString.t)
  (tl : tally) : list DetectionPattern * tally :=
  match pats with
  | [] => ([], tl)
  | p :: r =>
      let (hit, re) := test (pattern p) content in
      let tl := if hit then record_match p tl else tl in
      let (r', tl) := apply_patterns r content tl in
      (with_pattern p re :: r', tl)
  end.

(** [content.match(re)] is not null, for a pattern literal without [g]. *)
Definition matches (a : regex) (i : bool) (content : JsString.t) : bool :=
  match match_first (literal a false i false) content with
  | Some _ => true
  | None => false
  end.

Definition punctuation_regex : regex := Class false (chars "{}();,").

Definition imperfect_regex : regex :=
  Class true
    (CUnion CWord (CUnion CSpace (chars "()[]{};:,.<>!@#$%^&*+=|\?/-"))).

Definition quirky_regex : regex :=
  Seqs [WordBoundary;
        Group 1 (AltWords ["foo"; "bar"; "baz"; "qux"; "quirky"; "magic";
                           "hack"; "wtf"]);
        WordBoundary].

Definition line_length_heuristic (content : JsString.t) (tl : tally) : tally :=
  if (120 <? List.length content)%nat then
    add_ai 0.2 "Very long line length typical of AI generation" tl
  else if (List.length content <? 20)%nat
          && negb (matches punctuation_regex false content) then
    add_human 0.1 "Short, concise line suggests human writing" tl
  else tl.

Definition perfect_syntax_heuristic (content : JsString.t) (tl : tally)
  : tally :=
  let hasPerfectSyntax := negb (matches imperfect_regex false content) in
  if hasPerfectSyntax && (30 <? List.length content)%nat then
    add_ai 0.1 "Perfect syntax and structure" tl
  else tl.

Definition quirky_naming_heuristic (content : JsString.t) (tl : tally)
  : tally :=
  if matches quirky_regex true content then
    add_human 0.3 "Uses creative or placeholder naming typical of humans" tl
  else tl.

(** The end of analyzeLine: from the scores to the verdict.  First the
    confidence before it is clamped. *)
Definition raw_confidence (tl : tally) : float :=
  let totalScore := aiScore tl + humanScore tl in
  if 0 <? totalScore
  then Number.max (aiScore tl) (humanScore tl) / totalScore
  else 0.5.

Definition final_confidence (tl : tally) : float :=
  let confidence := raw_confidence tl in
  Number.min (Number.max confidence 0.1) 0.95.

Definition final_reasons (tl : tally) : list string :=
  match pushed tl with
  | [] => ["No significant patterns detected - neutral classification"]
  | rs => rs
  end.

Definition verdict (line : JsString.t) (tl : tally) : LineAnalysis :=
  mkLineAnalysis line (humanScore tl <? aiScore tl)
    (final_confidence tl) (final_reasons tl).

(** The verdict of a line that is empty once trimmed. *)
Definition empty_line (line : JsString.t) : LineAnalysis :=
  mkLineAnalysis line false 0.5 ["Empty line - neutral"].

(** [prop || []] as the operand of [for ... of]: the array to walk, or
    nothing when the value is truthy and not iterable, as a function or
    [Object.prototype] is. *)
Definition or_empty_array (prop : property) : option (list DetectionPattern) :=
  match prop with
  | Own pats => Some pats
  | Inherited => None
  | Undefined => Some []
  end.

(** The scores of a line that is not blank, with the module's state after
    the tests.  [for ... of] throws a TypeError on a value that is not
    iterable. *)
Definition score_line (reg : Registry) (content language : JsString.t)
  : Registry * completion tally :=
  let (general, tl) := apply_patterns (AI_PATTERNS reg) content
                         (mkTally 0 0 []) in
  match or_empty_array (get_property (LANGUAGE_PATTERNS reg) language) with
  | None => (mkRegistry general (LANGUAGE_PATTERNS reg), Throw TypeError)
  | Some langPatterns =>
      let (langPatterns', tl) := apply_patterns langPatterns content tl in
      let tl := line_length_heuristic content tl in
      let tl := perfect_syntax_heuristic content tl in
      let tl := quirky_naming_heuristic content tl in
      (mkRegistry general
         (update_property (LANGUAGE_PATTERNS reg) language langPatterns'),
       Normal tl)
  end.

Definition analyzeLine (reg : Registry) (line : JsString.t)
  (lineNumber : nat) (language : JsString.t)
  : Registry * completion LineAnalysis :=
  let content := trim line in
  if negb (truthy content) then (reg, Normal (empty_line line))
  else
    match score_line reg content language with
    | (reg', Normal tl) => (reg', Normal (verdict line tl))
    | (reg', Throw e) => (reg', Throw e)
    end.

(** *** analyzeCode *)

(** The adjustment of a line's confidence by the structure score. *)
Definition adjust (structureScore : float) (analysis : LineAnalysis)
  : LineAnalysis :=
  if 0.5 <? structureScore then
    if isAI analysis then
      mkLineAnalysis (content analysis) (isAI analysis)
        (Number.min (confidence analysis + 0.1) 0.95) (reasons analysis)
    else analysis
  else analysis.

(** The loop over the lines, from index [i]. *)
Fixpoint analyze_lines (reg : Registry) (lines : list JsString.t) (i : nat)
  (structureScore : float) (language : JsString.t)
  : Registry * completion (list LineAnalysis) :=
  match lines with
  | [] => (reg, Normal [])
  | line :: r =>
      match analyzeLine reg line (i + 1) language with
      | (reg, Throw e) => (reg, Throw e)
      | (reg, Normal analysis) =>
          match analyze_lines reg r (S i) structureScore language with
          | (reg, Throw e) => (reg, Throw e)
          | (reg, Normal rest) =>
              (reg, Normal (adjust structureScore analysis :: rest))
          end
      end
  end.

(** The statistics at the end of analyzeCode. *)
Definition summarize (lineAnalysis : list LineAnalysis) : AnalysisResult :=
  let nonEmptyLines :=
    filter (fun l => truthy (trim (content l))) lineAnalysis in
  let aiLines := List.length (filter isAI nonEmptyLines) in
  let humanLines := (List.length nonEmptyLines - aiLines)%nat in
  let totalLines := List.length nonEmptyLines in
  let aiPercentage :=
    if (0 <? totalLines)%nat
    then Number.of_nat aiLines / Number.of_nat totalLines * 100 else 0 in
  let humanPercentage :=
    if (0 <? totalLines)%nat
    then Number.of_nat humanLines / Number.of_nat totalLines * 100 else 0 in
  let overallConfidence :=
    if (0 <? List.length nonEmptyLines)%nat
    then fold_left (fun sum line => sum + confidence line) nonEmptyLines 0
         / Number.of_nat (List.length nonEmptyLines)
    else 0.5 in
  mkAnalysisResult totalLines aiLines humanLines aiPercentage humanPercentage
    overallConfidence lineAnalysis.

(** What the promise of [analyzeCode(code, language)] settles to, and the
    module's state then.  The timer the function first waits for draws its
    delay from [Math.random] and touches nothing the report is made of. *)
Definition analyzeCode (reg : Registry) (code language : JsString.t)
  : Registry * completion AnalysisResult :=
  let lines := split LF code in
  let structureScore := analyzeCodeStructure code in
  match analyze_lines reg lines 0 structureScore language with
  | (reg, Normal lineAnalysis) => (reg, Normal (summarize lineAnalysis))
  | (reg, Throw e) => (reg, Throw e)
  end.

(** ** What the proofs speak of *)

(** A pattern with its RegExp put back to [lastIndex = 0]. *)
Definition rewind (p : DetectionPattern) : DetectionPattern :=
  with_pattern p (set_lastIndex (pattern p) 0).

Definition rewind_table (tbl : list (JsString.t * list DetectionPattern)) :=
  map (fun kv => (fst kv, map rewind (snd kv))) tbl.

(** The states the module can be in: the tables it defines, with any
    [lastIndex] in each RegExp. *)
Definition well_formed (reg : Registry) : Prop :=
  map rewind (AI_PATTERNS reg) = initial_AI_PATTERNS
  /\ rewind_table (LANGUAGE_PATTERNS reg) = initial_LANGUAGE_PATTERNS.

(** Which patterns of an array match [content], each from its own
    [lastIndex]. *)
Definition hits (pats : list DetectionPattern) (content : JsString.t)
  : list bool :=
  map (fun p => fst (test (pattern p) content)) pats.

(** The tally of a pattern loop, from the answers of the tests. *)
Fixpoint tally_hits (pats : list DetectionPattern) (hs : list bool)
  (tl : tally) : tally :=
  match pats, hs with
  | p :: r, h :: hs' => tally_hits r hs' (if h then record_match p tl else tl)
  | _, _ => tl
  end.

Inductive length_class := Long | Short | Plain.

Definition length_class_of (content : JsString.t) : length_class :=
  if (120 <? List.length content)%nat then Long
  else if (List.length content <? 20)%nat
          && negb (matches punctuation_regex false content) then Short
  else Plain.

Definition perfect_syntax (content : JsString.t) : bool :=
  negb (matches imperfect_regex false content)
  && (30 <? List.length content)%nat.

(** What a line triggers: the patterns of the two loops, and the three
    heuristics. *)
Record profile := mkProfile {
  general_hits : list bool;
  language_hits : list bool;
  length_hit : length_class;
  perfect_hit : bool;
  quirky_hit : bool
}.

(** The array the language loop walks. *)
Definition language_array (reg : Registry) (language : JsString.t)
  : list DetectionPattern :=
  match or_empty_array (get_property (LANGUAGE_PATTERNS reg) language) with
  | Some pats => pats
  | None => []
  end.

Definition profile_of (reg : Registry) (content language : JsString.t)
  : profile :=
  mkProfile (hits (AI_PATTERNS reg) content)
    (hits (language_array reg language) content)
    (length_class_of content) (perfect_syntax content)
    (matches quirky_regex true content).

(** The scores a profile adds up to, in the order analyzeLine adds them. *)
Definition tally_of (langPatterns : list DetectionPattern) (p : profile)
  : tally :=
  let tl := tally_hits initial_AI_PATTERNS (general_hits p) (mkTally 0 0 []) in
  let tl := tally_hits langPatterns (language_hits p) tl in
  let tl :=
    match length_hit p with
    | Long => add_ai 0.2 "Very long line length typical of AI generation" tl
    | Short => add_human 0.1 "Short, concise line suggests human writing" tl
    | Plain => tl
    end in
  let tl :=
    if perfect_hit p then add_ai 0.1 "Perfect syntax and structure" tl
    else tl in
  if quirky_hit p then
    add_human 0.3 "Uses creative or placeholder naming typical of humans" tl
  else tl.

(** The arrays a language can select. *)
Definition language_arrays : list (list DetectionPattern) :=
  [] :: map snd initial_LANGUAGE_PATTERNS.

(** Every list of [n] answers. *)
Fixpoint answers (n : nat) : list (list bool) :=
  match n with
  | O => [[]]
  | S k => flat_map (fun l => [true :: l; false :: l]) (answers k)
  end.

(** Every profile of a line scored with [n] language patterns. *)
Definition profiles (n : nat) : list profile :=
  flat_map (fun g =>
    flat_map (fun l =>
      flat_map (fun c =>
        flat_map (fun pf =>
          map (fun q => mkProfile g l c pf q) [true; false])
          [true; false])
        [Long; Short; Plain])
      (answers n))
    (answers (List.length initial_AI_PATTERNS)).

(** [check] holds of every profile a line can have. *)
Definition every_profile (check : list DetectionPattern -> profile -> bool)
  : bool :=
  forallb (fun pats => forallb (check pats) (profiles (List.length pats)))
    language_arrays.

(** [check] holds of the scores of every profile. *)
Definition every_tally (check : tally -> bool) : bool :=
  every_profile (fun pats p => check (tally_of pats p)).

Definition between (lo hi x : float) : bool := (lo <=? x) && (x <=? hi).

(** The confidence a line of tally [tl] ends with, adjusted or not. *)
Definition confidences (tl : tally) : list float :=
  [final_confidence tl; Number.min (final_confidence tl + 0.1) 0.95].




(** The number of line feeds of a text. *)
Definition line_feeds (code : JsString.t) : nat :=
  List.length (filter (N.eqb LF) code).

(** How the verdict [a] of a line comes about in a run of analyzeCode. *)
Definition line_verdict (structureScore : float) (language : JsString.t)
  (line : JsString.t) (a : LineAnalysis) : Prop :=
  (blank line = true /\ a = empty_line line)
  \/ (blank line = false
      /\ exists reg reg' tl,
           well_formed reg
           /\ score_line reg (trim line) language = (reg', Normal tl)
           /\ a = adjust structureScore (verdict line tl)).


(** The profile of a line that triggers nothing. *)
Definition silent (p : profile) : bool :=
  forallb negb (general_hits p) && forallb negb (language_hits p)
  && match length_hit p with Plain => true | _ => false end
  && negb (perfect_hit p) && negb (quirky_hit p).


(** The state [x] is a position in an input of [n] code units. *)
Definition placed (n : nat) (x : mstate) : Prop :=
  (endIndex x + List.length (rest x))%nat = n.

(** A matcher that, started in an input of [n] code units, hands to its
    continuation only positions of that input that are not before its
    start. *)
Definition forward (n : nat)
  (m : mstate -> (mstate -> option mstate) -> option mstate) : Prop :=
  forall x k k',
    placed n x ->
    (forall y, placed n y ->
               (List.length (rest y) <= List.length (rest x))%nat ->
               k y = k' y) ->
    m x k = m x k'.

(** The text whose lines are [ls]. *)
Definition text (ls : list string) : JsString.t := join LF (map str ls).

(** A verdict of a line that is not blank. *)
Definition non_blank (a : LineAnalysis) : bool := truthy (trim (content a)).

(** *** The parts of analyzeCodeStructure *)

(** The lines analyzeCodeStructure looks at. *)
Definition non_blank_lines (code : JsString.t) : list JsString.t :=
  filter (fun line => truthy (trim line)) (split LF code).

(** [consistentIndentation] at the end of the loop. *)
Definition consistent_indentation (code : JsString.t) : nat :=
  snd (fold_left indentation_step (non_blank_lines code) ([], O)).

(** The three tests of analyzeCodeStructure. *)
Definition indentation_check (code : JsString.t) : bool :=
  0.9 <? Number.of_nat (consistent_indentation code)
         / Number.of_nat (List.length (non_blank_lines code)).

Definition comment_check (code : JsString.t) : bool :=
  0.3 <? Number.of_nat
           (List.length (match_all (literal comment_regex true false true)
                           code))
         / Number.of_nat (List.length (non_blank_lines code)).

Definition defensive_check (code : JsString.t) : bool :=
  Number.of_nat (List.length (non_blank_lines code)) * 0.1
  <? Number.of_nat
       (List.length (match_all (literal defensive_regex true false false)
                       code)).

(** The reference indentation of the loop: the first indentation that is
    not empty. *)
Definition reference_indent (lines : list JsString.t) : JsString.t :=
  hd [] (filter truthy (map indent_of lines)).

(** A line without indentation, or whose indentation starts with [ref]. *)
Definition fits_indent (ref line : JsString.t) : bool :=
  JsString.eqb (indent_of line) [] || startsWith (indent_of line) ref.

(** A text of white space only. *)
Definition all_space (s : JsString.t) : Prop :=
  Forall (fun c => is_space c = true) s.

(** The report of a code without a line that counts. *)
Definition blank_report (code : JsString.t) : AnalysisResult :=
  mkAnalysisResult 0 0 0 0 0 0.5 (map empty_line (split LF code)).

(** Two verdicts that differ by the stored line at most. *)
Definition same_verdict (a b : LineAnalysis) : Prop :=
  isAI a = isAI b /\ confidence a = confidence b /\ reasons a = reasons b.

Definition neutral_reason : string :=
  "No significant patterns detected - neutral classification".



(** ** The quantifiers have the turns they need *)

Section Fuel.

Variables ic ml : bool.

Lemma eat_placed n s x y :
  eat ic s x = Some y -> placed n x ->
  placed n y /\ (List.length (rest y) <= List.length (rest x))%nat.
Proof.
  revert x; induction s as [|a s IH]; intros x; cbn [eat].
  - intros [= <-]. auto.
  - destruct x as [e b [|c r] caps]; cbn [rest]; [discriminate|].
    destruct (canon_eq ic a c); [|discriminate].
    intros H Hx. apply IH in H.
    + cbn [rest List.length] in *. destruct H. split; [assumption|lia].
    + unfold placed in *. cbn [endIndex rest List.length] in *. lia.
Qed.

(** The loop of a quantifier goes forward when its body does. *)
Lemma repeat_matcher_forward n m gs greedy :
  forward n m ->
  forall fuel min x k k',
    placed n x ->
    (forall y, placed n y ->
               (List.length (rest y) <= List.length (rest x))%nat ->
               k y = k' y) ->
    repeat_matcher m gs greedy k fuel min x
    = repeat_matcher m gs greedy k' fuel min x.
Proof.
  intros Hm. induction fuel as [|fuel IH]; intros min x k k' Hx Hk;
    cbn [repeat_matcher]; [reflexivity|].
  assert (Hd : m (MState (endIndex x) (before x) (rest x)
                    (reset_captures gs (captures x)))
                 (fun y =>
                    if Nat.eqb min 0 && Nat.eqb (endIndex y) (endIndex x)
                    then None
                    else repeat_matcher m gs greedy k fuel (Nat.pred min) y)
               = m (MState (endIndex x) (before x) (rest x)
                      (reset_captures gs (captures x)))
                   (fun y =>
                      if Nat.eqb min 0 && Nat.eqb (endIndex y) (endIndex x)
                      then None
                      else repeat_matcher m gs greedy k' fuel (Nat.pred min)
                             y)).
  { apply Hm; [exact Hx|]. cbn [rest]. intros y Hy Hle.
    destruct (Nat.eqb min 0 && Nat.eqb (endIndex y) (endIndex x));
      [reflexivity|].
    apply IH; [exact Hy|]. intros z Hz Hzy. apply Hk; [exact Hz|lia]. }
  rewrite Hd, (Hk x Hx (le_n _)). reflexivity.
Qed.

(** Every matcher goes forward. *)
Lemma run_with_forward n slack a : forward n (run_with ic ml slack a).
Proof.
  induction a as [|invert A|a IHa b IHb|a IHa b IHb|greedy min a IHa
                  |g a IHa|g| | |];
    intros x k k' Hx Hk; cbn [run_with].
  - apply Hk; [exact Hx|lia].
  - destruct x as [e b [|c r] caps]; cbn [rest]; [reflexivity|].
    destruct (xorb invert (class_found ic A c)); [|reflexivity].
    apply Hk; unfold placed in *; cbn [endIndex rest List.length] in *; lia.
  - apply IHa; [exact Hx|]. intros y Hy Hle.
    apply IHb; [exact Hy|]. intros z Hz Hzy. apply Hk; [exact Hz|lia].
  - rewrite (IHa x k k' Hx Hk), (IHb x k k' Hx Hk). reflexivity.
  - apply repeat_matcher_forward with (n := n); assumption.
  - apply IHa; [exact Hx|]. intros y Hy Hle.
    apply Hk; unfold placed in *; cbn [endIndex rest] in *; assumption.
  - destruct (get_capture g (captures x)) as [s|]; [|apply Hk; [exact Hx|lia]].
    destruct (eat ic s x) as [y|] eqn:E; [|reflexivity].
    destruct (eat_placed n _ _ _ E Hx). now apply Hk.
  - destruct (xorb _ _); [apply Hk; [exact Hx|lia]|reflexivity].
  - destruct (before x) as [c|]; [|apply Hk; [exact Hx|lia]].
    destruct (ml && _); [apply Hk; [exact Hx|lia]|reflexivity].
  - destruct (rest x) as [|c r] eqn:E;
      [apply Hk; [exact Hx|rewrite E; apply le_n]|].
    destruct (ml && _); [apply Hk; [exact Hx|rewrite E; apply le_n]
                        |reflexivity].
Qed.

(** One turn more than the turns a quantifier needs changes nothing. *)
Lemma repeat_matcher_fuel n m gs greedy k :
  forward n m ->
  forall fuel min x,
    placed n x ->
    (min + List.length (rest x) + 1 <= fuel)%nat ->
    repeat_matcher m gs greedy k (S fuel) min x
    = repeat_matcher m gs greedy k fuel min x.
Proof.
  intros Hm. induction fuel as [|fuel IH]; intros min x Hx Hfuel; [lia|].
  cbn [repeat_matcher].
  assert (Hd : m (MState (endIndex x) (before x) (rest x)
                    (reset_captures gs (captures x)))
                 (fun y =>
                    if Nat.eqb min 0 && Nat.eqb (endIndex y) (endIndex x)
                    then None
                    else repeat_matcher m gs greedy k (S fuel) (Nat.pred min)
                           y)
               = m (MState (endIndex x) (before x) (rest x)
                      (reset_captures gs (captures x)))
                   (fun y =>
                      if Nat.eqb min 0 && Nat.eqb (endIndex y) (endIndex x)
                      then None
                      else repeat_matcher m gs greedy k fuel (Nat.pred min)
                             y)).
  { apply Hm; [exact Hx|]. cbn [rest]. intros y Hy Hle.
    destruct (Nat.eqb_spec min 0) as [Hmin|Hmin]; cbn [andb].
    - destruct (Nat.eqb_spec (endIndex y) (endIndex x)) as [He|He];
        [reflexivity|].
      apply IH; [exact Hy|]. unfold placed in *. lia.
    - apply IH; [exact Hy|]. lia. }
  cbn [repeat_matcher] in Hd. rewrite Hd. reflexivity.
Qed.

Lemma repeat_matcher_slack n m gs greedy k min x :
  forward n m -> placed n x ->
  forall slack,
    repeat_matcher m gs greedy k
      (slack + (min + List.length (rest x) + 1)) min x
    = repeat_matcher m gs greedy k (min + List.length (rest x) + 1) min x.
Proof.
  intros Hm Hx. induction slack as [|slack IH]; [reflexivity|].
  cbn [Nat.add]. rewrite (repeat_matcher_fuel n); [exact IH|exact Hm|exact Hx|].
  lia.
Qed.

(** Two bodies that agree give loops that agree. *)
Lemma repeat_matcher_body n m m' gs greedy k :
  forward n m ->
  (forall x k, placed n x -> m x k = m' x k) ->
  forall fuel min x,
    placed n x ->
    repeat_matcher m gs greedy k fuel min x
    = repeat_matcher m' gs greedy k fuel min x.
Proof.
  intros Hm Hmm'. induction fuel as [|fuel IH]; intros min x Hx;
    cbn [repeat_matcher]; [reflexivity|].
  rewrite <- (Hmm' (MState (endIndex x) (before x) (rest x)
                      (reset_captures gs (captures x))) _ Hx).
  assert (Hd : m (MState (endIndex x) (before x) (rest x)
                    (reset_captures gs (captures x)))
                 (fun y =>
                    if Nat.eqb min 0 && Nat.eqb (endIndex y) (endIndex x)
                    then None
                    else repeat_matcher m gs greedy k fuel (Nat.pred min) y)
               = m (MState (endIndex x) (before x) (rest x)
                      (reset_captures gs (captures x)))
                   (fun y =>
                      if Nat.eqb min 0 && Nat.eqb (endIndex y) (endIndex x)
                      then None
                      else repeat_matcher m' gs greedy k fuel (Nat.pred min)
                             y)).
  { apply Hm; [exact Hx|]. intros y Hy _.
    destruct (Nat.eqb min 0 && Nat.eqb (endIndex y) (endIndex x));
      [reflexivity|]. now apply IH. }
  rewrite Hd. reflexivity.
Qed.

Lemma run_with_slack_placed n slack a x k :
  placed n x -> run_with ic ml slack a x k = run ic ml a x k.
Proof.
  unfold run. revert x k.
  induction a as [|invert A|a IHa b IHb|a IHa b IHb|greedy min a IHa
                  |g a IHa|g| | |];
    intros x k Hx; cbn [run_with]; try reflexivity.
  - rewrite (IHa _ _ Hx).
    apply (run_with_forward n 0 a); [exact Hx|]. intros y Hy _.
    now apply IHb.
  - now rewrite (IHa _ _ Hx), (IHb _ _ Hx).
  - rewrite (repeat_matcher_slack n); [|apply run_with_forward|exact Hx].
    apply (repeat_matcher_body n); [apply run_with_forward| |exact Hx].
    intros y k' Hy. now apply IHa.
  - now apply IHa.
Qed.

(** Enough fuel gives the result: whatever more turns the quantifiers of a
    pattern are given, the matcher answers the same. *)
Theorem run_with_slack slack a x k :
  run_with ic ml slack a x k = run ic ml a x k.
Proof. now apply (run_with_slack_placed _ slack a x k eq_refl). Qed.

End Fuel.

(** ** The matches of a global pattern are all collected *)

Section Results.

Variables ic ml : bool.

(** The result of a loop is a result of its continuation. *)
Lemma repeat_matcher_result m gs greedy k :
  (forall x k z, m x k = Some z -> exists y, k y = Some z) ->
  forall fuel min x z,
    repeat_matcher m gs greedy k fuel min x = Some z ->
    exists y, k y = Some z.
Proof.
  intros Hm. induction fuel as [|fuel IH]; intros min x z;
    cbn [repeat_matcher]; [discriminate|].
  assert (Hd : forall xr,
    m xr (fun y =>
            if Nat.eqb min 0 && Nat.eqb (endIndex y) (endIndex x)
            then None
            else repeat_matcher m gs greedy k fuel (Nat.pred min) y) = Some z ->
    exists y, k y = Some z).
  { intros xr H. apply Hm in H as [y H].
    destruct (Nat.eqb min 0 && Nat.eqb (endIndex y) (endIndex x));
      [discriminate|]. now apply IH in H. }
  destruct (negb (Nat.eqb min 0)); [apply Hd|].
  destruct greedy.
  - destruct (m _ _) eqn:E; [intros [= <-]; now apply Hd in E|].
    intros H. now exists x.
  - destruct (k x) eqn:E; [intros [= <-]; now exists x|apply Hd].
Qed.

(** The result of a matcher is a result of its continuation. *)
Lemma run_with_result slack a :
  forall x k z,
    run_with ic ml slack a x k = Some z -> exists y, k y = Some z.
Proof.
  induction a as [|invert A|a IHa b IHb|a IHa b IHb|greedy min a IHa
                  |g a IHa|g| | |];
    intros x k z; cbn [run_with].
  - intros H. now exists x.
  - destruct (rest x) as [|c r]; [discriminate|].
    destruct (xorb _ _); [|discriminate]. intros H. eauto.
  - intros H. apply IHa in H as [y H]. now apply IHb in H.
  - destruct (run_with ic ml slack a x k) eqn:E.
    + intros [= <-]. now apply IHa in E.
    + apply IHb.
  - apply repeat_matcher_result. exact IHa.
  - intros H. apply IHa in H as [y H]. eauto.
  - destruct (get_capture g (captures x)); [|intros H; now exists x].
    destruct (eat ic _ x) as [y|]; [|discriminate]. intros H. eauto.
  - destruct (xorb _ _); [|discriminate]. intros H. now exists x.
  - destruct (before x) as [c|]; [|intros H; now exists x].
    destruct (ml && _); [|discriminate]. intros H. now exists x.
  - destruct (rest x) as [|c r]; [intros H; now exists x|].
    destruct (ml && _); [|discriminate]. intros H. now exists x.
Qed.

(** A match ends at or after its start, within the input. *)
Lemma match_at_bounds a i b r e :
  match_at ic ml a i b r = Some e -> (i <= e <= i + List.length r)%nat.
Proof.
  unfold match_at, run.
  rewrite (run_with_forward ic ml (i + List.length r) 0 a
             (MState i b r []) Some
             (fun y => if (i <=? endIndex y)%nat
                          && (endIndex y <=? i + List.length r)%nat
                       then Some y else None)).
  - destruct (run_with _ _ _ _ _ _) as [y|] eqn:E; [|discriminate].
    apply run_with_result in E as [y' E]. intros [= <-].
    destruct ((i <=? endIndex y')%nat && _) eqn:Hb; [|discriminate].
    injection E as <-. apply andb_prop in Hb as [H1 H2].
    apply Nat.leb_le in H1, H2. lia.
  - reflexivity.
  - unfold placed. cbn [endIndex rest]. intros y Hy Hle.
    replace ((i <=? endIndex y)%nat && (endIndex y <=? i + List.length r)%nat)
      with true; [reflexivity|].
    symmetry. apply andb_true_intro. split; apply Nat.leb_le; lia.
Qed.

Lemma search_bounds a i b r st e :
  search ic ml a i b r = Some (st, e) ->
  (i <= st <= e)%nat /\ (e <= i + List.length r)%nat.
Proof.
  revert i b; induction r as [|c r IH]; intros i b; cbn [search].
  - destruct (match_at ic ml a i b []) as [e'|] eqn:E; [|discriminate].
    intros [= <- <-]. apply match_at_bounds in E. lia.
  - destruct (match_at ic ml a i b (c :: r)) as [e'|] eqn:E.
    + intros [= <- <-]. apply match_at_bounds in E. lia.
    + intros H. apply IH in H. cbn [List.length]. lia.
Qed.

End Results.

Lemma exec_from_bounds re s i st e :
  exec_from re s i = Some (st, e) ->
  (i <= st <= e)%nat /\ (e <= List.length s)%nat.
Proof.
  unfold exec_from.
  destruct (Nat.ltb_spec (List.length s) i) as [Hlt|Hle]; [discriminate|].
  intros H. apply search_bounds in H. rewrite length_skipn in H. lia.
Qed.

Lemma match_all_from_fuel re s :
  forall fuel i,
    (List.length s + 2 <= fuel + i)%nat ->
    match_all_from (S fuel) re s i = match_all_from fuel re s i.
Proof.
  induction fuel as [|fuel IH]; intros i Hi.
  - cbn [match_all_from]. unfold exec_from.
    destruct (Nat.ltb_spec (List.length s) i); [reflexivity|lia].
  - change (match_all_from (S (S fuel)) re s i)
      with (match exec_from re s i with
            | Some (b, e) =>
                firstn (e - b) (skipn b s)
                :: match_all_from (S fuel) re s (if Nat.eqb e b then S e else e)
            | None => []
            end).
    change (match_all_from (S fuel) re s i)
      with (match exec_from re s i with
            | Some (b, e) =>
                firstn (e - b) (skipn b s)
                :: match_all_from fuel re s (if Nat.eqb e b then S e else e)
            | None => []
            end).
    destruct (exec_from re s i) as [[b e]|] eqn:E; [|reflexivity].
    apply exec_from_bounds in E. f_equal. apply IH.
    destruct (Nat.eqb_spec e b); lia.
Qed.

(** Enough fuel gives the result: whatever more turns the loop that collects
    the matches is given, it collects the same matches. *)
Theorem match_all_fuel re s more :
  match_all_from (more + (List.length s + 2)) re s 0 = match_all re s.
Proof.
  unfold match_all. induction more as [|more IH]; [reflexivity|].
  cbn [Nat.add]. rewrite match_all_from_fuel; [exact IH|lia].
Qed.

(** ** Splitting into lines *)

Section Lines.

Import JsString.

Lemma join_cons (p : JsString.t) (ps : list JsString.t) :
  ps <> [] -> join LF (p :: ps) = p ++ LF :: join LF ps.
Proof. destruct ps; [congruence|reflexivity]. Qed.

Lemma split_from_nonempty (cur s : JsString.t) : split_from LF cur s <> [].
Proof.
  revert cur; induction s as [|c r IH]; intros cur; simpl; [discriminate|].
  destruct (c =? LF)%N; [discriminate|apply IH].
Qed.

Lemma split_from_join (cur s : JsString.t) :
  join LF (split_from LF cur s) = rev cur ++ s.
Proof.
  revert cur; induction s as [|c r IH]; intros cur.
  - simpl. now rewrite app_nil_r.
  - cbn [split_from]. destruct (N.eqb_spec c LF) as [->|Hc].
    + rewrite join_cons by apply split_from_nonempty.
      now rewrite (IH []).
    + rewrite IH. simpl. now rewrite <- app_assoc.
Qed.

Lemma join_split (code : JsString.t) : join LF (split LF code) = code.
Proof. apply (split_from_join [] code). Qed.

Lemma split_from_length (cur s : JsString.t) :
  List.length (split_from LF cur s) = S (line_feeds s).
Proof.
  revert cur; induction s as [|c r IH]; intros cur; [reflexivity|].
  unfold line_feeds in *. cbn [split_from filter].
  rewrite (N.eqb_sym LF c).
  destruct (c =? LF)%N; cbn [List.length]; now rewrite IH.
Qed.

Lemma split_length (code : JsString.t) :
  List.length (split LF code) = (line_feeds code + 1)%nat.
Proof. unfold split. rewrite split_from_length. lia. Qed.

End Lines.

(** ** The state keeps the tables *)

Lemma test_rewind (re : RegExp) (s : JsString.t) :
  set_lastIndex (snd (test re s)) 0 = set_lastIndex re 0.
Proof.
  unfold test. destruct (global re).
  - destruct (exec_from re s (lastIndex re)) as [[b e]|]; reflexivity.
  - destruct (exec_from re s 0); reflexivity.
Qed.

Lemma apply_patterns_rewind pats content tl :
  map rewind (fst (apply_patterns pats content tl)) = map rewind pats.
Proof.
  revert tl; induction pats as [|p r IH]; intros tl; simpl; [reflexivity|].
  destruct (test (pattern p) content) as [hit re] eqn:E.
  specialize (IH (if hit then record_match p tl else tl)).
  destruct (apply_patterns r content _) as [r' tl']. simpl in *.
  rewrite IH. f_equal.
  unfold rewind, with_pattern. simpl.
  change re with (snd (hit, re)). rewrite <- E. now rewrite test_rewind.
Qed.

Lemma apply_patterns_tally pats content tl :
  snd (apply_patterns pats content tl) = tally_hits pats (hits pats content) tl.
Proof.
  revert tl; induction pats as [|p r IH]; intros tl; simpl; [reflexivity|].
  destruct (test (pattern p) content) as [hit re] eqn:E.
  specialize (IH (if hit then record_match p tl else tl)).
  destruct (apply_patterns r content _) as [r' tl']. simpl in *.
  exact IH.
Qed.

Lemma tally_hits_rewind pats hs tl :
  tally_hits (map rewind pats) hs tl = tally_hits pats hs tl.
Proof.
  revert hs tl; induction pats as [|p r IH]; intros hs tl; simpl;
    [reflexivity|].
  destruct hs as [|h hs']; [reflexivity|]. rewrite IH. reflexivity.
Qed.

Lemma hits_length pats content : List.length (hits pats content) = List.length pats.
Proof. unfold hits. apply length_map. Qed.

Lemma own_property_rewind tbl key :
  own_property (rewind_table tbl) key
  = option_map (map rewind) (own_property tbl key).
Proof.
  induction tbl as [|[k v] r IH]; simpl; [reflexivity|].
  destruct (JsString.eqb k key); [reflexivity|exact IH].
Qed.

Lemma own_property_In tbl key v :
  own_property tbl key = Some v -> In v (map snd tbl).
Proof.
  induction tbl as [|[k w] r IH]; simpl; [discriminate|].
  destruct (JsString.eqb k key).
  - intros [= ->]. now left.
  - intros H. right. now apply IH.
Qed.

Lemma update_property_rewind tbl key v v' :
  own_property tbl key = Some v -> map rewind v' = map rewind v ->
  rewind_table (update_property tbl key v') = rewind_table tbl.
Proof.
  intros Hown Hv. induction tbl as [|[k w] r IH]; simpl in *; [reflexivity|].
  destruct (JsString.eqb k key).
  - injection Hown as ->. simpl. now rewrite Hv.
  - simpl. now rewrite IH.
Qed.

Lemma update_property_absent tbl key v' :
  own_property tbl key = None -> update_property tbl key v' = tbl.
Proof.
  intros Hown. induction tbl as [|[k w] r IH]; simpl in *; [reflexivity|].
  destruct (JsString.eqb k key); [discriminate|]. now rewrite IH.
Qed.

(** The array of the language, rewound, is one the module defines. *)
Lemma language_array_rewind reg language :
  well_formed reg ->
  In (map rewind (language_array reg language)) language_arrays.
Proof.
  intros [_ Htbl]. unfold language_array, get_property.
  destruct (own_property (LANGUAGE_PATTERNS reg) language) as [v|] eqn:E.
  - simpl. right.
    apply (own_property_In initial_LANGUAGE_PATTERNS language).
    rewrite <- Htbl, own_property_rewind, E. reflexivity.
  - destruct (existsb _ _); cbn [or_empty_array map]; now left.
Qed.

Lemma score_line_well_formed reg content language reg' out :
  well_formed reg -> score_line reg content language = (reg', out) ->
  well_formed reg'.
Proof.
  intros [Hg Hl]. unfold score_line.
  pose proof (apply_patterns_rewind (AI_PATTERNS reg) content (mkTally 0 0 []))
    as Hg'.
  destruct (apply_patterns (AI_PATTERNS reg) content _) as [general tl].
  cbn [fst] in Hg'. unfold get_property.
  destruct (own_property (LANGUAGE_PATTERNS reg) language) as [v|] eqn:E;
    [|destruct (existsb _ _)]; cbn [or_empty_array].
  - pose proof (apply_patterns_rewind v content tl) as Hv.
    destruct (apply_patterns v content tl) as [v' tl']. cbn [fst] in Hv.
    intros [= <- _]. split; cbn [AI_PATTERNS LANGUAGE_PATTERNS].
    + now rewrite Hg'.
    + now rewrite (update_property_rewind _ _ v).
  - intros [= <- _]. split; cbn [AI_PATTERNS LANGUAGE_PATTERNS];
      [now rewrite Hg'|exact Hl].
  - cbn [apply_patterns]. intros [= <- _].
    split; cbn [AI_PATTERNS LANGUAGE_PATTERNS]; [now rewrite Hg'|].
    now rewrite update_property_absent.
Qed.

(** ** The scores of a line are those of its profile *)

Lemma line_length_heuristic_class content tl :
  line_length_heuristic content tl
  = match length_class_of content with
    | Long => add_ai 0.2 "Very long line length typical of AI generation" tl
    | Short => add_human 0.1 "Short, concise line suggests human writing" tl
    | Plain => tl
    end.
Proof.
  unfold line_length_heuristic, length_class_of.
  destruct (120 <? List.length content)%nat; [reflexivity|].
  destruct ((List.length content <? 20)%nat && _); reflexivity.
Qed.

Lemma score_line_tally reg content language reg' tl :
  well_formed reg -> score_line reg content language = (reg', Normal tl) ->
  tl = tally_of (map rewind (language_array reg language))
         (profile_of reg content language).
Proof.
  intros [Hg _]. unfold score_line, tally_of, profile_of, language_array.
  cbn [general_hits language_hits length_hit perfect_hit quirky_hit].
  pose proof (apply_patterns_tally (AI_PATTERNS reg) content (mkTally 0 0 []))
    as Hg'.
  destruct (apply_patterns (AI_PATTERNS reg) content _) as [general tl1].
  cbn [snd] in Hg'.
  rewrite <- Hg, !tally_hits_rewind, <- Hg'.
  destruct (or_empty_array _) as [pats|]; [|discriminate].
  pose proof (apply_patterns_tally pats content tl1) as Hl'.
  destruct (apply_patterns pats content tl1) as [pats' tl2]. cbn [snd] in Hl'.
  rewrite <- Hl'.
  intros [= _ <-].
  rewrite line_length_heuristic_class.
  unfold perfect_syntax_heuristic, quirky_naming_heuristic, perfect_syntax.
  reflexivity.
Qed.

Lemma In_answers (l : list bool) : In l (answers (List.length l)).
Proof.
  induction l as [|b l IH]; simpl; [now left|].
  apply in_flat_map. exists l. split; [exact IH|].
  destruct b; simpl; auto.
Qed.

Lemma In_profiles (p : profile) :
  List.length (general_hits p) = List.length initial_AI_PATTERNS ->
  In p (profiles (List.length (language_hits p))).
Proof.
  intros Hg. destruct p as [g l c pf q]. cbn [general_hits language_hits] in *.
  unfold profiles. rewrite <- Hg.
  apply in_flat_map. exists g. split; [apply In_answers|].
  apply in_flat_map. exists l. split; [apply In_answers|].
  apply in_flat_map. exists c. split; [destruct c; simpl; auto|].
  apply in_flat_map. exists pf. split; [destruct pf; simpl; auto|].
  apply in_map. destruct q; simpl; auto.
Qed.

Lemma every_profile_sound check pats p :
  every_profile check = true ->
  In pats language_arrays ->
  List.length (general_hits p) = List.length initial_AI_PATTERNS ->
  List.length (language_hits p) = List.length pats ->
  check pats p = true.
Proof.
  intros Hall Hpats Hg Hl. unfold every_profile in Hall.
  rewrite forallb_forall in Hall. specialize (Hall pats Hpats).
  rewrite forallb_forall in Hall. apply Hall.
  rewrite <- Hl. now apply In_profiles.
Qed.

Lemma profile_of_general_length reg content language :
  well_formed reg ->
  List.length (general_hits (profile_of reg content language))
  = List.length initial_AI_PATTERNS.
Proof.
  intros [Hg _]. cbn [profile_of general_hits].
  now rewrite hits_length, <- Hg, length_map.
Qed.

(** Whatever holds of every profile holds of the profile of every line. *)
Lemma profile_of_checked check reg content language :
  every_profile check = true -> well_formed reg ->
  check (map rewind (language_array reg language))
    (profile_of reg content language) = true.
Proof.
  intros Hall Hwf. apply every_profile_sound; trivial.
  - now apply language_array_rewind.
  - now apply profile_of_general_length.
  - cbn [profile_of language_hits]. now rewrite hits_length, length_map.
Qed.

(** Whatever holds of the scores of every profile holds of the scores of
    every line. *)
Lemma score_line_checked (check : tally -> bool) reg content language reg' tl :
  every_tally check = true ->
  well_formed reg -> score_line reg content language = (reg', Normal tl) ->
  check tl = true.
Proof.
  intros Hall Hwf Hs. rewrite (score_line_tally _ _ _ _ _ Hwf Hs).
  now apply (profile_of_checked (fun pats p => check (tally_of pats p))).
Qed.

(** ** The loop over the lines *)

Lemma adjust_empty_line structureScore line :
  adjust structureScore (empty_line line) = empty_line line.
Proof. unfold adjust. destruct (0.5 <? structureScore); reflexivity. Qed.

Lemma analyzeLine_well_formed reg line n language reg' out :
  well_formed reg -> analyzeLine reg line n language = (reg', out) ->
  well_formed reg'.
Proof.
  intros Hwf. unfold analyzeLine.
  destruct (negb (truthy (trim line))).
  - now intros [= <- _].
  - destruct (score_line reg (trim line) language) as [reg1 [tl|e]] eqn:E;
      intros [= <- _]; eapply score_line_well_formed; eauto.
Qed.

Lemma analyze_lines_verdicts reg lines i structureScore language reg' out :
  well_formed reg ->
  analyze_lines reg lines i structureScore language = (reg', Normal out) ->
  Forall2 (line_verdict structureScore language) lines out.
Proof.
  revert reg i out.
  induction lines as [|line r IH]; intros reg i out Hwf; cbn [analyze_lines].
  - intros [= _ <-]. constructor.
  - destruct (analyzeLine reg line (i + 1) language) as [reg1 [a|e]] eqn:E;
      [|discriminate].
    pose proof (analyzeLine_well_formed _ _ _ _ _ _ Hwf E) as Hwf1.
    destruct (analyze_lines reg1 r (S i) structureScore language)
      as [reg2 [rest|e]] eqn:E'; [|discriminate].
    intros [= <- <-]. constructor; [|exact (IH _ _ _ Hwf1 E')].
    unfold analyzeLine in E. unfold line_verdict, blank.
    destruct (negb (truthy (trim line))).
    + left. injection E as _ <-. split; [reflexivity|].
      apply adjust_empty_line.
    + right. split; [reflexivity|].
      destruct (score_line reg (trim line) language) as [reg3 [tl|e]] eqn:Es;
        [|discriminate].
      injection E as _ <-. now exists reg, reg3, tl.
Qed.

Lemma analyze_lines_well_formed reg lines i structureScore language reg' out :
  well_formed reg ->
  analyze_lines reg lines i structureScore language = (reg', out) ->
  well_formed reg'.
Proof.
  revert reg i out.
  induction lines as [|line r IH]; intros reg i out Hwf; cbn [analyze_lines].
  - now intros [= <- _].
  - destruct (analyzeLine reg line (i + 1) language) as [reg1 [a|e]] eqn:E.
    + pose proof (analyzeLine_well_formed _ _ _ _ _ _ Hwf E) as Hwf1.
      destruct (analyze_lines reg1 r (S i) structureScore language)
        as [reg2 [rest|e]] eqn:E'; intros [= <- _]; eapply IH; eauto.
    + intros [= <- _]. eapply analyzeLine_well_formed; eauto.
Qed.

(** A call of analyzeCode leaves the module in a state it can be in. *)
Lemma analyzeCode_well_formed reg code language reg' out :
  well_formed reg -> analyzeCode reg code language = (reg', out) ->
  well_formed reg'.
Proof.
  intros Hwf. unfold analyzeCode.
  destruct (analyze_lines reg _ 0 _ language) as [reg1 [l|e]] eqn:E;
    intros [= <- _]; eapply analyze_lines_well_formed; eauto.
Qed.

Lemma initial_well_formed : well_formed initial.
Proof. split; reflexivity. Qed.

(** ** The verdicts follow the lines *)

Lemma split_from_no_LF (cur s : JsString.t) :
  ~ In LF cur -> Forall (fun l => ~ In LF l) (split_from LF cur s).
Proof.
  revert cur; induction s as [|c r IH]; intros cur Hcur; cbn [split_from].
  - constructor; [|constructor]. now rewrite <- in_rev.
  - destruct (N.eqb_spec c LF) as [->|Hc].
    + constructor; [now rewrite <- in_rev|]. apply IH. intros [].
    + apply IH. intros [H|H]; [congruence|contradiction].
Qed.

Lemma content_adjust structureScore a :
  content (adjust structureScore a) = content a.
Proof.
  unfold adjust. destruct (0.5 <? structureScore); [|reflexivity].
  destruct (isAI a); reflexivity.
Qed.

Lemma analyzeLine_content reg line n language reg' a :
  analyzeLine reg line n language = (reg', Normal a) -> content a = line.
Proof.
  unfold analyzeLine. destruct (negb (truthy (trim line))).
  - now intros [= _ <-].
  - destruct (score_line reg (trim line) language) as [reg1 [tl|e]];
      [|discriminate].
    now intros [= _ <-].
Qed.

Lemma analyze_lines_content reg lines i structureScore language reg' out :
  analyze_lines reg lines i structureScore language = (reg', Normal out) ->
  map content out = lines.
Proof.
  revert reg i out.
  induction lines as [|line r IH]; intros reg i out; cbn [analyze_lines].
  - now intros [= _ <-].
  - destruct (analyzeLine reg line (i + 1) language) as [reg1 [a|e]] eqn:E;
      [|discriminate].
    destruct (analyze_lines reg1 r (S i) structureScore language)
      as [reg2 [rest|e]] eqn:E'; [|discriminate].
    intros [= <- <-]. cbn [map].
    now rewrite content_adjust, (analyzeLine_content _ _ _ _ _ _ E),
      (IH _ _ _ E').
Qed.

Lemma analyzeCode_report reg code language reg' r :
  analyzeCode reg code language = (reg', Normal r) ->
  exists out,
    analyze_lines reg (split LF code) 0 (analyzeCodeStructure code) language
    = (reg', Normal out)
    /\ r = summarize out.
Proof.
  unfold analyzeCode.
  destruct (analyze_lines reg _ 0 _ language) as [reg1 [out|e]];
    [|discriminate].
  intros [= <- <-]. now exists out.
Qed.

(** C10: the report has one verdict per line of the code, that is one more
    than the code has line feeds, in the order of the lines, each holding its
    line as it stands in the code: the stored lines hold no line feed and
    joined by line feeds they give the code back. *)
Theorem verdicts_follow_lines reg code language reg' r :
  analyzeCode reg code language = (reg', Normal r) ->
  List.length (lineAnalysis r) = (line_feeds code + 1)%nat
  /\ map content (lineAnalysis r) = split LF code
  /\ Forall (fun line => ~ In LF line) (map content (lineAnalysis r))
  /\ join LF (map content (lineAnalysis r)) = code.
Proof.
  intros H. destruct (analyzeCode_report _ _ _ _ _ H) as (out & Hout & ->).
  cbn [summarize lineAnalysis].
  pose proof (analyze_lines_content _ _ _ _ _ _ _ Hout) as Hc.
  split; [|split; [exact Hc|split]].
  - rewrite <- (length_map content), Hc. apply split_length.
  - rewrite Hc. apply split_from_no_LF. intros [].
  - rewrite Hc. apply join_split.
Qed.

Lemma verdicts_follow_lines_witness :
  exists reg' r,
    analyzeCode initial (text ["if (x) {"; "  y = 1;"; ""; "}"])
      (str "javascript") = (reg', Normal r)
    /\ List.length (lineAnalysis r) = 4%nat
    /\ map content (lineAnalysis r)
       = map str ["if (x) {"; "  y = 1;"; ""; "}"].
Proof.
  assert (E : exists reg' r,
            analyzeCode initial (text ["if (x) {"; "  y = 1;"; ""; "}"])
              (str "javascript") = (reg', Normal r))
    by (eexists; eexists; vm_compute; reflexivity).
  destruct E as (reg' & r & E). exists reg', r. split; [exact E|].
  destruct (verdicts_follow_lines _ _ _ _ _ E) as (Hn & Hc & _).
  split; [exact Hn|exact Hc].
Defined.

(** ** The empty code *)

(** C3, as the code has it: for the empty code and any language, in any
    state, the report counts no line, is neutral at 0.5, and holds one
    verdict, that of the empty line the code splits into. *)
Theorem empty_code_report reg language :
  analyzeCode reg (str "") language
  = (reg, Normal (mkAnalysisResult 0 0 0 0 0 0.5 [empty_line (str "")])).
Proof. reflexivity. Qed.

(** C3, as stated, fails: the verdicts of the empty code are not the empty
    sequence. *)
Lemma empty_code_has_a_verdict :
  ~ (exists reg r,
       analyzeCode initial (str "") (str "javascript") = (reg, Normal r)
       /\ totalLines r = 0%nat /\ overallConfidence r = 0.5
       /\ lineAnalysis r = []).
Proof.
  intros (reg & r & H & _ & _ & Hl).
  vm_compute in H. injection H as _ <-. discriminate Hl.
Qed.

(** ** Counts and percentages *)

Lemma filter_length_le {A} (f : A -> bool) (l : list A) :
  (List.length (filter f l) <= List.length l)%nat.
Proof.
  induction l as [|x l IH]; simpl; [lia|]. destruct (f x); simpl; lia.
Qed.




(** ** The range of the confidences *)

Lemma adjust_confidence structureScore line tl :
  In (confidence (adjust structureScore (verdict line tl))) (confidences tl).
Proof.
  unfold adjust, confidences.
  destruct (0.5 <? structureScore); [|now left].
  destruct (isAI (verdict line tl)); [right; now left|now left].
Qed.

Lemma isAI_adjust structureScore a : isAI (adjust structureScore a) = isAI a.
Proof.
  unfold adjust. destruct (0.5 <? structureScore); [|reflexivity].
  destruct (isAI a) eqn:E; [reflexivity|exact E].
Qed.

Lemma Forall2_Forall_r {A B} (R : A -> B -> Prop) (P : B -> Prop) l l' :
  (forall x y, R x y -> P y) -> Forall2 R l l' -> Forall P l'.
Proof. intros HR H. induction H; constructor; eauto. Qed.

(** The verdict of a line is non-blank when its line is. *)
Lemma line_verdict_non_blank structureScore language line a :
  line_verdict structureScore language line a ->
  non_blank a = negb (blank line).
Proof.
  unfold non_blank, blank. rewrite negb_involutive.
  intros [[_ ->]|(_ & reg & reg1 & tl & _ & _ & ->)];
    [reflexivity|now rewrite content_adjust].
Qed.

Lemma analyzeCode_verdicts reg code language reg' r :
  well_formed reg -> analyzeCode reg code language = (reg', Normal r) ->
  Forall2 (line_verdict (analyzeCodeStructure code) language)
    (split LF code) (lineAnalysis r).
Proof.
  intros Hwf H. destruct (analyzeCode_report _ _ _ _ _ H) as (out & Hout & ->).
  eapply analyze_lines_verdicts; eauto.
Qed.

Lemma clamped_in_range :
  every_tally (fun tl => forallb (between 0.1 0.95) (confidences tl)) = true.
Proof. vm_compute. reflexivity. Qed.



(** The confidence of a verdict of the report passes a test that the two
    confidences of every tally pass. *)
Lemma line_verdict_confidence (test : float -> bool) structureScore language
  line a :
  every_tally (fun tl => forallb test (confidences tl)) = true ->
  line_verdict structureScore language line a ->
  blank line = false -> test (confidence a) = true.
Proof.
  intros Hall [[Hb _]|(_ & reg & reg1 & tl & Hwf & Hs & ->)] Hnb;
    [congruence|].
  pose proof (score_line_checked _ _ _ _ _ _ Hall Hwf Hs) as Hc.
  cbv beta in Hc. rewrite forallb_forall in Hc.
  apply Hc, adjust_confidence.
Qed.

(** C6: in a report, the confidence of every verdict of a line that is not
    blank lies between 0.1 and 0.95, and the verdict of every blank line has
    confidence 0.5 and is not AI. *)
Theorem confidence_within_clamp reg code language reg' r :
  well_formed reg -> analyzeCode reg code language = (reg', Normal r) ->
  Forall (fun a =>
            if non_blank a then between 0.1 0.95 (confidence a) = true
            else confidence a = 0.5 /\ isAI a = false)
    (lineAnalysis r).
Proof.
  intros Hwf H.
  eapply Forall2_Forall_r; [|exact (analyzeCode_verdicts _ _ _ _ _ Hwf H)].
  intros line a Hv. cbv beta.
  rewrite (line_verdict_non_blank _ _ _ _ Hv).
  destruct (blank line) eqn:Hb; cbn [negb].
  - destruct Hv as [[_ ->]|[Hnb _]]; [now split|congruence].
  - exact (line_verdict_confidence _ _ _ _ _ clamped_in_range Hv Hb).
Qed.

Lemma confidence_within_clamp_witness :
  exists reg' r,
    analyzeCode initial (text ["try {"; "  x = x;"; ""; "} // end"])
      (str "typescript") = (reg', Normal r)
    /\ Forall (fun a =>
                 if non_blank a then between 0.1 0.95 (confidence a) = true
                 else confidence a = 0.5 /\ isAI a = false)
         (lineAnalysis r).
Proof.
  assert (E : exists reg' r,
            analyzeCode initial (text ["try {"; "  x = x;"; ""; "} // end"])
              (str "typescript") = (reg', Normal r))
    by (eexists; eexists; vm_compute; reflexivity).
  destruct E as (reg' & r & E). exists reg', r. split; [exact E|].
  exact (confidence_within_clamp _ _ _ _ _ initial_well_formed E).
Defined.




(** ** Languages *)

Lemma JsString_eqb_eq (a b : JsString.t) : JsString.eqb a b = true <-> a = b.
Proof.
  revert b; induction a as [|x a IH]; intros [|y b]; simpl;
    try (split; [discriminate|discriminate]); [tauto|].
  rewrite andb_true_iff, N.eqb_eq, IH. split.
  - now intros [-> ->].
  - now intros [= -> ->].
Qed.

Lemma own_property_update tbl key v key' :
  own_property (update_property tbl key v) key' = None
  <-> own_property tbl key' = None.
Proof.
  induction tbl as [|[k w] r IH]; simpl; [tauto|].
  destruct (JsString.eqb k key); simpl;
    destruct (JsString.eqb k key'); try tauto; split; discriminate.
Qed.

Lemma get_property_update tbl key v key' :
  get_property (update_property tbl key v) key' = Inherited
  <-> get_property tbl key' = Inherited.
Proof.
  unfold get_property.
  pose proof (own_property_update tbl key v key') as H.
  destruct (own_property (update_property tbl key v) key') as [l|],
    (own_property tbl key') as [l'|].
  - split; discriminate.
  - destruct H as [_ H]. discriminate (H eq_refl).
  - destruct H as [H _]. discriminate (H eq_refl).
  - tauto.
Qed.

(** A language that is not a name of [Object.prototype] gets its line
    scored, and stays such a language. *)
Lemma score_line_returns reg content language :
  get_property (LANGUAGE_PATTERNS reg) language <> Inherited ->
  exists reg' tl,
    score_line reg content language = (reg', Normal tl)
    /\ get_property (LANGUAGE_PATTERNS reg') language <> Inherited.
Proof.
  intros Hp. unfold score_line.
  destruct (apply_patterns (AI_PATTERNS reg) content _) as [general tl].
  destruct (get_property (LANGUAGE_PATTERNS reg) language) as [pats| |] eqn:E;
    [|congruence|]; cbn [or_empty_array].
  - destruct (apply_patterns pats content tl) as [pats' tl'].
    eexists. eexists. split; [reflexivity|]. cbn [LANGUAGE_PATTERNS].
    rewrite get_property_update. congruence.
  - cbn [apply_patterns].
    eexists. eexists. split; [reflexivity|]. cbn [LANGUAGE_PATTERNS].
    rewrite get_property_update. congruence.
Qed.

Lemma analyze_lines_returns reg lines i structureScore language :
  get_property (LANGUAGE_PATTERNS reg) language <> Inherited ->
  exists reg' out,
    analyze_lines reg lines i structureScore language = (reg', Normal out).
Proof.
  revert reg i; induction lines as [|line r IH]; intros reg i Hp;
    cbn [analyze_lines].
  - now exists reg, [].
  - unfold analyzeLine. destruct (negb (truthy (trim line))).
    + destruct (IH reg (S i) Hp) as (reg' & out & ->).
      eexists. eexists. reflexivity.
    + destruct (score_line_returns reg (trim line) language Hp)
        as (reg1 & tl & -> & Hp1).
      destruct (IH reg1 (S i) Hp1) as (reg' & out & ->).
      eexists. eexists. reflexivity.
Qed.

(** X8: for every code, and every language that is not a name of
    [Object.prototype], analyzeCode returns a report. *)
Lemma analyzeCode_returns reg code language :
  get_property (LANGUAGE_PATTERNS reg) language <> Inherited ->
  exists reg' r, analyzeCode reg code language = (reg', Normal r).
Proof.
  intros Hp. unfold analyzeCode.
  destruct (analyze_lines_returns reg (split LF code) 0
              (analyzeCodeStructure code) language Hp) as (reg' & out & ->).
  eexists. eexists. reflexivity.
Qed.

(** C2 at the language [constructor]: the table inherits that name from
    [Object.prototype], the value is not iterable, and the call throws. *)
Theorem inherited_language_throws :
  get_property initial_LANGUAGE_PATTERNS (str "constructor") = Inherited
  /\ exists reg,
       analyzeCode initial (str "x") (str "constructor")
       = (reg, Throw TypeError).
Proof. split; [reflexivity|]. eexists. vm_compute. reflexivity. Qed.

(** ** The state between the tests *)

(** C1 at the code [// a]: the second of two calls in a row answers with
    another report than the first, because the first call leaves the
    [lastIndex] of the patterns it matched at the end of their matches. *)
Theorem second_call_differs :
  exists reg1 r1 reg2 r2,
    analyzeCode initial (str "// a") (str "javascript") = (reg1, Normal r1)
    /\ analyzeCode reg1 (str "// a") (str "javascript") = (reg2, Normal r2)
    /\ map (fun p => lastIndex (pattern p)) (AI_PATTERNS reg1)
       = [4; 0; 0; 0; 0; 2; 0; 0]%nat
    /\ overallConfidence r1 = 0.57142857142857151
    /\ overallConfidence r2 = 0.95
    /\ r1 <> r2.
Proof.
  do 4 eexists.
  split; [vm_compute; reflexivity|].
  split; [vm_compute; reflexivity|].
  repeat split.
  intros H. apply (f_equal (fun r => map reasons (lineAnalysis r))) in H.
  vm_compute in H. discriminate H.
Qed.

(** C7 at the code of two lines [// a]: the structure score is 0.5, so no
    confidence is adjusted, and the two verdicts of the same text differ,
    because the tests of the second line start at the [lastIndex] the first
    line left. *)
Theorem same_line_two_verdicts :
  exists reg r a1 a2,
    analyzeCode initial (text ["// a"; "// a"]) (str "javascript")
    = (reg, Normal r)
    /\ analyzeCodeStructure (text ["// a"; "// a"]) = 0.5
    /\ lineAnalysis r = [a1; a2]
    /\ content a1 = content a2
    /\ confidence a1 = 0.57142857142857151
    /\ confidence a2 = 0.95
    /\ reasons a1 <> reasons a2.
Proof.
  do 4 eexists.
  split; [vm_compute; reflexivity|].
  repeat split.
  vm_compute. discriminate.
Qed.

(** Every verdict of a report is the adjusted verdict analyzeLine gave for
    its line, in some state of the module. *)
Lemma analyze_lines_adjust reg lines i structureScore language reg' out :
  analyze_lines reg lines i structureScore language = (reg', Normal out) ->
  Forall2 (fun line a =>
             exists reg1 reg2 n v,
               analyzeLine reg1 line n language = (reg2, Normal v)
               /\ a = adjust structureScore v)
    lines out.
Proof.
  revert reg i out.
  induction lines as [|line r IH]; intros reg i out; cbn [analyze_lines].
  - intros [= _ <-]. constructor.
  - destruct (analyzeLine reg line (i + 1) language) as [reg1 [a|e]] eqn:E;
      [|discriminate].
    destruct (analyze_lines reg1 r (S i) structureScore language)
      as [reg2 [rest|e]] eqn:E'; [|discriminate].
    intros [= <- <-]. constructor; [|exact (IH _ _ _ E')].
    now exists reg, reg1, (i + 1)%nat, a.
Qed.

(** What the adjustment does: above a structure score of 0.5 an AI verdict
    gains 0.1 of confidence, up to 0.95, and keeps its other fields; any
    other verdict, and every verdict at a structure score of at most 0.5, is
    left as it is. *)
Lemma adjust_spec structureScore a :
  ((0.5 <? structureScore) = true -> isAI a = true ->
   adjust structureScore a
   = mkLineAnalysis (content a) true
       (Number.min (confidence a + 0.1) 0.95) (reasons a))
  /\ (isAI a = false -> adjust structureScore a = a)
  /\ ((0.5 <? structureScore) = false -> adjust structureScore a = a).
Proof.
  unfold adjust. repeat split.
  - now intros -> ->.
  - intros ->. now destruct (0.5 <? structureScore).
  - now intros ->.
Qed.

(** ** One line *)

Lemma get_property_undefined tbl key :
  get_property tbl key = Undefined -> own_property tbl key = None.
Proof.
  unfold get_property. destruct (own_property tbl key); [discriminate|].
  reflexivity.
Qed.

(** Two languages the table does not know score a line alike. *)
Lemma score_line_undefined reg content language language' :
  get_property (LANGUAGE_PATTERNS reg) language = Undefined ->
  get_property (LANGUAGE_PATTERNS reg) language' = Undefined ->
  score_line reg content language = score_line reg content language'.
Proof.
  intros H H'. unfold score_line.
  destruct (apply_patterns (AI_PATTERNS reg) content _) as [general tl].
  rewrite H, H'. cbn [or_empty_array apply_patterns].
  now rewrite !update_property_absent by now apply get_property_undefined.
Qed.






(** ** The TODO marker *)








Lemma tally_hits_silent pats hs tl :
  forallb negb hs = true -> tally_hits pats hs tl = tl.
Proof.
  revert hs tl; induction pats as [|p r IH]; intros [|h hs] tl; cbn;
    try reflexivity.
  destruct h; [discriminate|]. intros H. now apply IH.
Qed.

Lemma tally_of_silent pats p :
  silent p = true -> tally_of pats p = mkTally 0 0 [].
Proof.
  unfold silent, tally_of. intros H.
  repeat (apply andb_prop in H as [H ?]).
  rewrite !tally_hits_silent by assumption.
  destruct (length_hit p); try discriminate.
  destruct (perfect_hit p); [discriminate|].
  destruct (quirky_hit p); [discriminate|]. reflexivity.
Qed.

Lemma nothing_pushed_is_silent :
  every_profile (fun pats p =>
    match pushed (tally_of pats p) with [] => silent p | _ => true end)
  = true.
Proof. vm_compute. reflexivity. Qed.







(** ** The structure score *)

Lemma analyzeCodeStructure_checks code :
  analyzeCodeStructure code
  = Number.min
      (let s := if indentation_check code then 0 + 0.3 else 0 in
       let s := if comment_check code then s + 0.2 else s in
       if defensive_check code then s + 0.2 else s)
      1.
Proof. reflexivity. Qed.

(** X1: the structure score is one of 0, 0.2, 0.3, 0.4, 0.5 and 0.7, the cap at
    1 never cuts it, and it exceeds 0.5, the threshold of the adjustment,
    exactly when the three tests of indentation, comments and defensive
    programming all pass. *)
Theorem structure_score_cases code :
  In (analyzeCodeStructure code) [0; 0.2; 0.3; 0.4; 0.5; 0.3 + 0.2 + 0.2]
  /\ (0.5 <? analyzeCodeStructure code)
     = indentation_check code && comment_check code && defensive_check code.
Proof.
  rewrite analyzeCodeStructure_checks.
  destruct (indentation_check code), (comment_check code),
    (defensive_check code); cbv zeta; split;
    try reflexivity; cbn [In];
    repeat (first [left; reflexivity | right]).
Qed.

(** ** Code of white space *)

Lemma drop_space_all_space s : all_space s -> drop_space s = [].
Proof.
  induction 1 as [|c s Hc _ IH]; cbn [drop_space]; [reflexivity|].
  now rewrite Hc.
Qed.

Lemma drop_space_head s :
  drop_space s = [] \/ exists c r, drop_space s = c :: r /\ is_space c = false.
Proof.
  induction s as [|c s IH]; cbn [drop_space]; [now left|].
  destruct (is_space c) eqn:E; [exact IH|]. right. now exists c, s.
Qed.

Lemma drop_space_nil s : drop_space s = [] -> all_space s.
Proof.
  induction s as [|c s IH]; cbn [drop_space]; [constructor|].
  destruct (is_space c) eqn:E; [|discriminate].
  intros H. constructor; [exact E|now apply IH].
Qed.

(** A line is blank exactly when it is made of white space. *)
Lemma blank_all_space line : blank line = true <-> all_space line.
Proof.
  unfold blank, trim. split.
  - intros H. destruct (drop_space_head line) as [E|(c & r & E & Hc)];
      [now apply drop_space_nil|].
    rewrite E in H. exfalso.
    destruct (rev (drop_space (rev (c :: r)))) eqn:E'; [|discriminate].
    apply (f_equal (@rev _)) in E'. rewrite rev_involutive in E'.
    cbn [rev] in E'. apply drop_space_nil in E'.
    unfold all_space in E'. rewrite Forall_forall in E'.
    specialize (E' c). rewrite E' in Hc; [discriminate|].
    apply in_or_app. right. now left.
  - intros H. now rewrite (drop_space_all_space _ H).
Qed.

Lemma analyze_lines_blank reg lines i structureScore language :
  forallb blank lines = true ->
  analyze_lines reg lines i structureScore language
  = (reg, Normal (map empty_line lines)).
Proof.
  revert i; induction lines as [|line r IH]; intros i; cbn [forallb];
    [reflexivity|].
  intros H. apply andb_prop in H as [Hb Hr].
  cbn [analyze_lines map]. unfold analyzeLine. unfold blank in Hb.
  rewrite Hb, (IH _ Hr), adjust_empty_line. reflexivity.
Qed.

Lemma non_blank_empty_line line :
  blank line = true -> non_blank (empty_line line) = false.
Proof. unfold blank, non_blank. cbn [empty_line content]. now destruct (truthy _). Qed.

Lemma summarize_blank lines :
  forallb blank lines = true ->
  summarize (map empty_line lines)
  = mkAnalysisResult 0 0 0 0 0 0.5 (map empty_line lines).
Proof.
  intros H. unfold summarize. fold non_blank.
  replace (filter non_blank (map empty_line lines)) with (@nil LineAnalysis);
    [reflexivity|].
  induction lines as [|line r IH]; [reflexivity|].
  cbn [forallb] in H. apply andb_prop in H as [Hb Hr].
  cbn [map filter]. rewrite (non_blank_empty_line _ Hb). now apply IH.
Qed.

(** X2: a code all of whose lines are blank is answered, in any state and for
    any language, by the report that counts no line, is neutral at 0.5 and
    holds the empty-line verdict of every line; and the state stays as it
    is. *)
Theorem blank_code_report reg code language :
  forallb blank (split LF code) = true ->
  analyzeCode reg code language = (reg, Normal (blank_report code)).
Proof.
  intros H. unfold analyzeCode, blank_report.
  now rewrite (analyze_lines_blank _ _ _ _ _ H), (summarize_blank _ H).
Qed.

Lemma blank_code_report_witness :
  forallb blank (split LF (text [""; "   "; " "])) = true
  /\ analyzeCode initial (text [""; "   "; " "]) (str "toString")
     = (initial, Normal (blank_report (text [""; "   "; " "]))).
Proof.
  assert (H : forallb blank (split LF (text [""; "   "; " "])) = true)
    by (vm_compute; reflexivity).
  split; [exact H|]. exact (blank_code_report initial _ (str "toString") H).
Defined.

Lemma split_from_Forall (P : cu -> Prop) cur s :
  Forall P cur -> Forall P s -> Forall (Forall P) (split_from LF cur s).
Proof.
  revert cur; induction s as [|c r IH]; intros cur Hcur Hs; cbn [split_from].
  - constructor; [|constructor]. now apply Forall_rev.
  - inversion Hs as [|? ? Hc Hr]; subst.
    destruct (c =? LF)%N.
    + constructor; [now apply Forall_rev|]. apply IH; [constructor|exact Hr].
    + apply IH; [now constructor|exact Hr].
Qed.

Lemma join_all_space lines :
  Forall all_space lines -> all_space (join LF lines).
Proof.
  induction 1 as [|line r Hl Hr IH]; [constructor|].
  destruct r as [|line' r']; [exact Hl|].
  change (join LF (line :: line' :: r'))
    with (line ++ LF :: join LF (line' :: r')).
  apply Forall_app. split; [exact Hl|]. constructor; [reflexivity|exact IH].
Qed.

(** The lines of a code are all blank exactly when the code is made of white
    space. *)
Lemma blank_lines_all_space code :
  forallb blank (split LF code) = true <-> all_space code.
Proof.
  rewrite forallb_forall. split.
  - intros H. rewrite <- (join_split code). apply join_all_space.
    apply Forall_forall. intros line Hin. apply blank_all_space. now apply H.
  - intros H line Hin. apply blank_all_space.
    pose proof (split_from_Forall _ [] code (Forall_nil _) H) as Hs.
    rewrite Forall_forall in Hs. now apply Hs.
Qed.

Lemma search_all_space ic ml a :
  (forall i b r, all_space r -> match_at ic ml a i b r = None) ->
  forall r i b, all_space r -> search ic ml a i b r = None.
Proof.
  intros Ha. induction r as [|c r IH]; intros i b Hr; cbn [search];
    rewrite (Ha _ _ _ Hr); [reflexivity|].
  inversion Hr; subst. now apply IH.
Qed.

Lemma space_is_not (c a : cu) :
  is_space c = true -> is_space a = false -> (a =? c)%N = false.
Proof.
  intros Hc Ha. destruct (N.eqb_spec a c) as [->|]; [congruence|reflexivity].
Qed.

Lemma class_found_char (a c : cu) :
  class_found false (CChar a) c = (a =? c)%N.
Proof. unfold class_found. cbn [cset_mem andb]. apply orb_false_r. Qed.

Lemma comment_regex_all_space i b r :
  all_space r -> match_at false true comment_regex i b r = None.
Proof.
  intros [|c r' Hc _]; [reflexivity|].
  unfold match_at, run, comment_regex.
  cbn [Seqs Word str lits list_ascii_of_string map run_with rest
       class_found cset_mem andb orb xorb].
  change (N_of_ascii "/") with 47%N.
  now rewrite (class_found_char 47%N c), (space_is_not _ 47%N Hc eq_refl).
Qed.

Lemma defensive_regex_all_space i b r :
  all_space r -> match_at false false defensive_regex i b r = None.
Proof.
  intros [|c r' Hc _]; [reflexivity|].
  unfold match_at, run, defensive_regex.
  cbn [AltWords Word str lits list_ascii_of_string map run_with rest
       class_found cset_mem andb orb xorb].
  change (N_of_ascii "t") with 116%N. change (N_of_ascii "c") with 99%N.
  change (N_of_ascii "E") with 69%N.
  now rewrite (class_found_char 116%N c), (class_found_char 99%N c),
    (class_found_char 69%N c), (space_is_not _ 116%N Hc eq_refl),
    (space_is_not _ 99%N Hc eq_refl), (space_is_not _ 69%N Hc eq_refl).
Qed.

Lemma match_all_all_space re s :
  (forall i b r, all_space r ->
                 match_at (ignoreCase re) (multiline re) (source re) i b r
                 = None) ->
  all_space s -> match_all re s = [].
Proof.
  intros Hre Hs. unfold match_all.
  replace (List.length s + 2)%nat with (S (List.length s + 1)) by lia.
  cbn [match_all_from]. unfold exec_from. cbn [Nat.ltb Nat.leb skipn].
  now rewrite (search_all_space _ _ _ Hre s).
Qed.

(** X3: the structure score of a code without a line that counts is 0: the
    ratios are 0/0, not a number, and no comparison with it holds. *)
Theorem blank_code_structure code :
  forallb blank (split LF code) = true -> analyzeCodeStructure code = 0.
Proof.
  intros H. rewrite analyzeCodeStructure_checks.
  assert (Hl : non_blank_lines code = []).
  { unfold non_blank_lines. rewrite forallb_forall in H.
    induction (split LF code) as [|line r IH]; [reflexivity|].
    cbn [filter]. pose proof (H line (or_introl eq_refl)) as Hb.
    unfold blank in Hb. apply negb_true_iff in Hb. rewrite Hb.
    apply IH. intros x Hx. apply H. now right. }
  apply blank_lines_all_space in H.
  unfold indentation_check, comment_check, defensive_check,
    consistent_indentation.
  rewrite Hl,
    (match_all_all_space (literal comment_regex true false true) _
       comment_regex_all_space H),
    (match_all_all_space (literal defensive_regex true false false) _
       defensive_regex_all_space H).
  reflexivity.
Qed.

Lemma blank_code_structure_witness :
  forallb blank (split LF (text [""; "   "; " "])) = true
  /\ analyzeCodeStructure (text [""; "   "; " "]) = 0.
Proof.
  assert (H : forallb blank (split LF (text [""; "   "; " "])) = true)
    by (vm_compute; reflexivity).
  split; [exact H|]. exact (blank_code_structure _ H).
Defined.

(** ** A language that names a property of Object.prototype *)

Lemma score_line_inherited reg content language :
  get_property (LANGUAGE_PATTERNS reg) language = Inherited ->
  snd (score_line reg content language) = Throw TypeError.
Proof.
  intros H. unfold score_line.
  destruct (apply_patterns (AI_PATTERNS reg) content _) as [general tl].
  now rewrite H.
Qed.

Lemma analyze_lines_inherited reg lines i structureScore language :
  get_property (LANGUAGE_PATTERNS reg) language = Inherited ->
  snd (analyze_lines reg lines i structureScore language)
  = if forallb blank lines then Normal (map empty_line lines)
    else Throw TypeError.
Proof.
  intros H. revert i; induction lines as [|line r IH]; intros i;
    cbn [analyze_lines forallb map]; [reflexivity|].
  unfold analyzeLine, blank at 1.
  destruct (negb (truthy (trim line))); cbn [andb].
  - specialize (IH (S i)).
    destruct (analyze_lines reg r (S i) structureScore language)
      as [reg' [rest|e]]; cbn [snd] in *.
    + destruct (forallb blank r); [|discriminate].
      injection IH as ->. now rewrite adjust_empty_line.
    + destruct (forallb blank r); [discriminate|exact IH].
  - pose proof (score_line_inherited reg (trim line) language H) as Hs.
    destruct (score_line reg (trim line) language) as [reg' [tl|e]];
      cbn [snd] in *; [discriminate|now destruct e].
Qed.

(** X4: with a language that names a property of [Object.prototype], the call
    throws a TypeError exactly when the code has a line that is not blank;
    a code of blank lines gets its report. *)
Theorem inherited_language_outcome reg code language :
  get_property (LANGUAGE_PATTERNS reg) language = Inherited ->
  snd (analyzeCode reg code language)
  = if forallb blank (split LF code) then Normal (blank_report code)
    else Throw TypeError.
Proof.
  intros H. unfold analyzeCode.
  pose proof (analyze_lines_inherited reg (split LF code) 0
                (analyzeCodeStructure code) language H) as Hl.
  destruct (analyze_lines reg (split LF code) 0 _ language) as [reg' [out|e]];
    cbn [snd] in *.
  - destruct (forallb blank (split LF code)) eqn:Hb; [|discriminate].
    injection Hl as ->. unfold blank_report. now rewrite summarize_blank.
  - destruct (forallb blank (split LF code)); [discriminate|now destruct e].
Qed.

Lemma inherited_language_outcome_witness :
  get_property (LANGUAGE_PATTERNS initial) (str "__proto__") = Inherited
  /\ snd (analyzeCode initial (text [""; "  return 1;"]) (str "__proto__"))
     = Throw TypeError.
Proof.
  assert (H : get_property (LANGUAGE_PATTERNS initial) (str "__proto__")
              = Inherited) by reflexivity.
  split; [exact H|].
  rewrite (inherited_language_outcome initial (text [""; "  return 1;"])
             (str "__proto__") H).
  vm_compute. reflexivity.
Defined.

(** ** Languages the table does not know *)

Lemma score_line_undefined_table reg content language :
  get_property (LANGUAGE_PATTERNS reg) language = Undefined ->
  LANGUAGE_PATTERNS (fst (score_line reg content language))
  = LANGUAGE_PATTERNS reg.
Proof.
  intros H. unfold score_line.
  destruct (apply_patterns (AI_PATTERNS reg) content _) as [general tl].
  rewrite H. cbn [or_empty_array apply_patterns fst LANGUAGE_PATTERNS].
  apply update_property_absent. now apply get_property_undefined.
Qed.

Lemma analyze_lines_undefined lines i structureScore language language' :
  forall reg,
    get_property (LANGUAGE_PATTERNS reg) language = Undefined ->
    get_property (LANGUAGE_PATTERNS reg) language' = Undefined ->
    analyze_lines reg lines i structureScore language
    = analyze_lines reg lines i structureScore language'.
Proof.
  revert i; induction lines as [|line r IH]; intros i reg H H';
    cbn [analyze_lines]; [reflexivity|].
  unfold analyzeLine. destruct (negb (truthy (trim line))).
  - now rewrite (IH (S i) reg H H').
  - rewrite (score_line_undefined reg (trim line) language language' H H').
    pose proof (score_line_undefined_table reg (trim line) language' H')
      as Ht.
    destruct (score_line reg (trim line) language') as [reg1 [tl|e]];
      [|reflexivity].
    cbn [fst] in Ht. rewrite (IH (S i) reg1); [reflexivity| |];
      now rewrite Ht.
Qed.

(** X5: two languages that are neither keys of the table nor names of
    [Object.prototype] get the same report and leave the same state: an
    unknown language only leaves the language patterns out. *)
Theorem unknown_languages_agree reg code language language' :
  get_property (LANGUAGE_PATTERNS reg) language = Undefined ->
  get_property (LANGUAGE_PATTERNS reg) language' = Undefined ->
  analyzeCode reg code language = analyzeCode reg code language'.
Proof.
  intros H H'. unfold analyzeCode.
  now rewrite (analyze_lines_undefined _ _ _ language language' reg H H').
Qed.

Lemma unknown_languages_agree_witness :
  get_property (LANGUAGE_PATTERNS initial) (str "rust") = Undefined
  /\ get_property (LANGUAGE_PATTERNS initial) (str "JavaScript") = Undefined
  /\ analyzeCode initial (text ["fn main() {"; "}"]) (str "rust")
     = analyzeCode initial (text ["fn main() {"; "}"]) (str "JavaScript").
Proof.
  assert (H : get_property (LANGUAGE_PATTERNS initial) (str "rust")
              = Undefined) by reflexivity.
  assert (H' : get_property (LANGUAGE_PATTERNS initial) (str "JavaScript")
               = Undefined) by reflexivity.
  split; [exact H|]. split; [exact H'|].
  exact (unknown_languages_agree initial _ _ _ H H').
Defined.

(** ** The patterns of the other languages *)

Lemma own_property_update_other tbl key v k :
  k <> key ->
  own_property (update_property tbl key v) k = own_property tbl k.
Proof.
  intros Hk. induction tbl as [|[k0 w] r IH]; cbn [update_property];
    [reflexivity|].
  destruct (JsString.eqb k0 key) eqn:E; cbn [own_property].
  - apply JsString_eqb_eq in E. subst k0.
    destruct (JsString.eqb key k) eqn:E'; [|reflexivity].
    apply JsString_eqb_eq in E'. congruence.
  - destruct (JsString.eqb k0 k); [reflexivity|exact IH].
Qed.

Lemma score_line_other_language reg content language k :
  k <> language ->
  own_property (LANGUAGE_PATTERNS (fst (score_line reg content language))) k
  = own_property (LANGUAGE_PATTERNS reg) k.
Proof.
  intros Hk. unfold score_line.
  destruct (apply_patterns (AI_PATTERNS reg) content _) as [general tl].
  destruct (or_empty_array _) as [pats|]; [|reflexivity].
  destruct (apply_patterns pats content tl) as [pats' tl'].
  cbn [fst LANGUAGE_PATTERNS]. now apply own_property_update_other.
Qed.

Lemma analyze_lines_other_language lines i structureScore language k :
  k <> language ->
  forall reg,
    own_property
      (LANGUAGE_PATTERNS
         (fst (analyze_lines reg lines i structureScore language))) k
    = own_property (LANGUAGE_PATTERNS reg) k.
Proof.
  intros Hk. revert i; induction lines as [|line r IH]; intros i reg;
    cbn [analyze_lines]; [reflexivity|].
  unfold analyzeLine. destruct (negb (truthy (trim line))).
  - specialize (IH (S i) reg).
    destruct (analyze_lines reg r (S i) structureScore language)
      as [reg' [rest|e]]; exact IH.
  - pose proof (score_line_other_language reg (trim line) language k Hk)
      as Hs.
    destruct (score_line reg (trim line) language) as [reg1 [tl|e]];
      cbn [fst] in *; [|exact Hs].
    specialize (IH (S i) reg1).
    destruct (analyze_lines reg1 r (S i) structureScore language)
      as [reg' [rest|e]]; cbn [fst] in *; now rewrite IH.
Qed.

(** X6: a call for one language leaves the patterns of every other language
    as they are, their [lastIndex] included, whether it returns or throws. *)
Theorem other_languages_untouched reg code language k :
  k <> language ->
  own_property (LANGUAGE_PATTERNS (fst (analyzeCode reg code language))) k
  = own_property (LANGUAGE_PATTERNS reg) k.
Proof.
  intros Hk. unfold analyzeCode.
  pose proof (analyze_lines_other_language (split LF code) 0
                (analyzeCodeStructure code) language k Hk reg) as H.
  destruct (analyze_lines reg (split LF code) 0 _ language)
    as [reg' [out|e]]; exact H.
Qed.

Lemma other_languages_untouched_witness :
  str "python" <> str "javascript"
  /\ own_property
       (LANGUAGE_PATTERNS
          (fst (analyzeCode initial (text ["console.log(print(1))"])
                  (str "javascript"))))
       (str "python")
     = own_property (LANGUAGE_PATTERNS initial) (str "python").
Proof.
  assert (H : str "python" <> str "javascript") by discriminate.
  split; [exact H|].
  exact (other_languages_untouched initial _ _ _ H).
Defined.

(** ** What a call can change *)

Lemma score_line_rewind reg content language :
  map rewind (AI_PATTERNS (fst (score_line reg content language)))
  = map rewind (AI_PATTERNS reg)
  /\ rewind_table (LANGUAGE_PATTERNS (fst (score_line reg content language)))
     = rewind_table (LANGUAGE_PATTERNS reg).
Proof.
  unfold score_line.
  pose proof (apply_patterns_rewind (AI_PATTERNS reg) content (mkTally 0 0 []))
    as Hg.
  destruct (apply_patterns (AI_PATTERNS reg) content _) as [general tl].
  cbn [fst] in Hg. unfold get_property.
  destruct (own_property (LANGUAGE_PATTERNS reg) language) as [v|] eqn:E;
    [|destruct (existsb _ _)]; cbn [or_empty_array].
  - pose proof (apply_patterns_rewind v content tl) as Hv.
    destruct (apply_patterns v content tl) as [v' tl']. cbn [fst] in *.
    split; [exact Hg|]. now apply (update_property_rewind _ _ v).
  - now split.
  - cbn [apply_patterns fst AI_PATTERNS LANGUAGE_PATTERNS].
    split; [exact Hg|]. now rewrite update_property_absent.
Qed.

Lemma analyze_lines_rewind lines i structureScore language :
  forall reg,
    map rewind
      (AI_PATTERNS (fst (analyze_lines reg lines i structureScore language)))
    = map rewind (AI_PATTERNS reg)
    /\ rewind_table
         (LANGUAGE_PATTERNS
            (fst (analyze_lines reg lines i structureScore language)))
       = rewind_table (LANGUAGE_PATTERNS reg).
Proof.
  revert i; induction lines as [|line r IH]; intros i reg;
    cbn [analyze_lines]; [now split|].
  unfold analyzeLine. destruct (negb (truthy (trim line))).
  - specialize (IH (S i) reg).
    destruct (analyze_lines reg r (S i) structureScore language)
      as [reg' [rest|e]]; exact IH.
  - pose proof (score_line_rewind reg (trim line) language) as Hs.
    destruct (score_line reg (trim line) language) as [reg1 [tl|e]];
      cbn [fst] in *; [|exact Hs].
    specialize (IH (S i) reg1).
    destruct (analyze_lines reg1 r (S i) structureScore language)
      as [reg' [rest|e]]; cbn [fst] in *; destruct IH as [-> ->]; exact Hs.
Qed.

(** X7: a call changes nothing of the two pattern tables but the [lastIndex] of
    their RegExp objects, whether it returns or throws: the tables before
    and after are the same once every [lastIndex] is put back to 0. *)
Theorem only_lastIndex_changes reg code language :
  map rewind (AI_PATTERNS (fst (analyzeCode reg code language)))
  = map rewind (AI_PATTERNS reg)
  /\ rewind_table (LANGUAGE_PATTERNS (fst (analyzeCode reg code language)))
     = rewind_table (LANGUAGE_PATTERNS reg).
Proof.
  unfold analyzeCode.
  pose proof (analyze_lines_rewind (split LF code) 0
                (analyzeCodeStructure code) language reg) as H.
  destruct (analyze_lines reg (split LF code) 0 _ language)
    as [reg' [out|e]]; exact H.
Qed.

(** ** When a report is returned *)

Lemma analyzeCode_returns_witness :
  get_property (LANGUAGE_PATTERNS initial) (str "typescript") <> Inherited
  /\ exists reg' r,
       analyzeCode initial (text ["let x: number = 1;"]) (str "typescript")
       = (reg', Normal r).
Proof.
  assert (H : get_property (LANGUAGE_PATTERNS initial) (str "typescript")
              <> Inherited) by (vm_compute; discriminate).
  split; [exact H|].
  exact (analyzeCode_returns initial _ _ H).
Defined.

(** ** The lines that count *)

Lemma filter_map_content (out : list LineAnalysis) :
  map content (filter non_blank out)
  = filter (fun line => negb (blank line)) (map content out).
Proof.
  induction out as [|a out IH]; [reflexivity|].
  cbn [map filter]. unfold non_blank at 1, blank at 1.
  rewrite negb_involutive.
  destruct (truthy (trim (content a))); cbn [map]; now rewrite IH.
Qed.

(** X9: the total of a report is the number of lines of the code that are not
    blank, so it is at most the number of line feeds plus one; and the lines
    of the verdicts that count are those lines, in their order. *)
Theorem total_is_non_blank_lines reg code language reg' r :
  analyzeCode reg code language = (reg', Normal r) ->
  totalLines r
  = List.length (filter (fun line => negb (blank line)) (split LF code))
  /\ (totalLines r <= line_feeds code + 1)%nat
  /\ map content (filter non_blank (lineAnalysis r))
     = filter (fun line => negb (blank line)) (split LF code).
Proof.
  intros H. destruct (analyzeCode_report _ _ _ _ _ H) as (out & Hout & ->).
  pose proof (analyze_lines_content _ _ _ _ _ _ _ Hout) as Hc.
  unfold summarize. cbn [totalLines lineAnalysis]. fold non_blank.
  assert (Hf : map content (filter non_blank out)
               = filter (fun line => negb (blank line)) (split LF code))
    by now rewrite filter_map_content, Hc.
  split; [|split; [|exact Hf]].
  - now rewrite <- Hf, length_map.
  - rewrite <- split_length, <- Hc, length_map. apply filter_length_le.
Qed.

Lemma total_is_non_blank_lines_witness :
  exists reg' r,
    analyzeCode initial (text ["a"; ""; "  b  "; "   "]) (str "python")
    = (reg', Normal r)
    /\ totalLines r = 2%nat.
Proof.
  assert (E : exists reg' r,
            analyzeCode initial (text ["a"; ""; "  b  "; "   "])
              (str "python") = (reg', Normal r))
    by (eexists; eexists; vm_compute; reflexivity).
  destruct E as (reg' & r & E). exists reg', r. split; [exact E|].
  destruct (total_is_non_blank_lines _ _ _ _ _ E) as (Ht & _).
  rewrite Ht. vm_compute. reflexivity.
Defined.

(** ** Every verdict of a report *)

(** What holds of the adjusted verdict of every line, in every state of the
    module, holds of every verdict of a report. *)
Lemma analyze_lines_each (P : JsString.t -> LineAnalysis -> Prop)
  structureScore language :
  (forall reg1 line n reg2 v,
     well_formed reg1 ->
     analyzeLine reg1 line n language = (reg2, Normal v) ->
     P line (adjust structureScore v)) ->
  forall lines reg i reg' out,
    well_formed reg ->
    analyze_lines reg lines i structureScore language = (reg', Normal out) ->
    Forall2 P lines out.
Proof.
  intros HP. induction lines as [|line r IH]; intros reg i reg' out Hwf;
    cbn [analyze_lines].
  - intros [= _ <-]. constructor.
  - destruct (analyzeLine reg line (i + 1) language) as [reg1 [a|e]] eqn:E;
      [|discriminate].
    pose proof (analyzeLine_well_formed _ _ _ _ _ _ Hwf E) as Hwf1.
    destruct (analyze_lines reg1 r (S i) structureScore language)
      as [reg2 [rest|e]] eqn:E'; [|discriminate].
    intros [= <- <-]. constructor; [|exact (IH _ _ _ _ Hwf1 E')].
    exact (HP _ _ _ _ _ Hwf E).
Qed.

Lemma analyzeLine_cases reg line n language reg' v :
  analyzeLine reg line n language = (reg', Normal v) ->
  (blank line = true /\ v = empty_line line)
  \/ (blank line = false
      /\ exists tl, score_line reg (trim line) language = (reg', Normal tl)
                    /\ v = verdict line tl).
Proof.
  unfold analyzeLine, blank. destruct (negb (truthy (trim line))).
  - intros [= _ <-]. now left.
  - right. split; [reflexivity|].
    destruct (score_line reg (trim line) language) as [reg1 [tl|e]];
      [|discriminate].
    injection H as <- <-. now exists tl.
Qed.




(** ** Reasons *)

Lemma neutral_reason_not_pushed :
  every_tally (fun tl =>
    negb (existsb (String.eqb neutral_reason) (pushed tl))) = true.
Proof. vm_compute. reflexivity. Qed.

Lemma existsb_In_string (s : string) (l : list string) :
  In s l -> existsb (String.eqb s) l = true.
Proof.
  intros H. apply existsb_exists. exists s. split; [exact H|].
  apply String.eqb_refl.
Qed.

(** X11: every verdict of a report has a reason.  The neutral reason is given
    alone, and only to a line that is not blank, is human and has the
    confidence 0.5: a line that triggered nothing. *)
Theorem reasons_of_a_report reg code language reg' r :
  well_formed reg -> analyzeCode reg code language = (reg', Normal r) ->
  Forall (fun a =>
            reasons a <> []
            /\ (In neutral_reason (reasons a) ->
                reasons a = [neutral_reason] /\ non_blank a = true
                /\ isAI a = false /\ confidence a = 0.5))
    (lineAnalysis r).
Proof.
  intros Hwf H. destruct (analyzeCode_report _ _ _ _ _ H) as (out & Hout & ->).
  cbn [summarize lineAnalysis].
  refine (Forall2_Forall_r _ _ _ _ _
            (analyze_lines_each
               (fun _ a =>
                  reasons a <> []
                  /\ (In neutral_reason (reasons a) ->
                      reasons a = [neutral_reason] /\ non_blank a = true
                      /\ isAI a = false /\ confidence a = 0.5))
               _ _ _ _ _ _ _ _ Hwf Hout)); [intros x y Hxy; exact Hxy|].
  intros reg1 line n reg2 v Hwf1 Hv.
  destruct (analyzeLine_cases _ _ _ _ _ _ Hv)
    as [[_ ->]|(Hb & tl & Hs & ->)].
  - rewrite adjust_empty_line. cbn [empty_line reasons].
    split; [discriminate|]. intros [Hin|[]]. discriminate Hin.
  - pose proof (score_line_checked _ _ _ _ _ _ neutral_reason_not_pushed
                  Hwf1 Hs) as Hnot.
    cbv beta in Hnot. apply negb_true_iff in Hnot.
    assert (Hr : reasons (adjust (analyzeCodeStructure code)
                            (verdict line tl)) = final_reasons tl).
    { unfold adjust. destruct (0.5 <? _); [|reflexivity].
      destruct (isAI (verdict line tl)); reflexivity. }
    rewrite Hr. unfold final_reasons.
    destruct (pushed tl) as [|why rest] eqn:Hp.
    + split; [discriminate|]. intros _.
      pose proof (score_line_tally _ _ _ _ _ Hwf1 Hs) as Ht.
      pose proof (profile_of_checked _ reg1 (trim line) language
                    nothing_pushed_is_silent Hwf1) as Hsilent.
      cbv beta in Hsilent. rewrite <- Ht, Hp in Hsilent.
      rewrite (tally_of_silent _ _ Hsilent) in Ht. subst tl.
      split; [reflexivity|]. split.
      * unfold non_blank. rewrite content_adjust. cbn [verdict content].
        unfold blank in Hb. now apply negb_false_iff in Hb.
      * unfold adjust. destruct (0.5 <? _); split; reflexivity.
    + split; [discriminate|]. intros Hin.
      apply existsb_In_string in Hin. congruence.
Qed.

Lemma reasons_of_a_report_witness :
  exists reg' r,
    analyzeCode initial (text ["it's a plain sentence here"; ""; "x = x;"])
      (str "javascript") = (reg', Normal r)
    /\ Forall (fun a => reasons a <> []) (lineAnalysis r).
Proof.
  assert (E : exists reg' r,
            analyzeCode initial
              (text ["it's a plain sentence here"; ""; "x = x;"])
              (str "javascript") = (reg', Normal r))
    by (eexists; eexists; vm_compute; reflexivity).
  destruct E as (reg' & r & E). exists reg', r. split; [exact E|].
  eapply Forall_impl;
    [|exact (reasons_of_a_report _ _ _ _ _ initial_well_formed E)].
  intros a [Ha _]. exact Ha.
Defined.

(** ** Evidence on one side *)

Lemma one_sided_evidence :
  every_tally (fun tl =>
    (negb (PrimFloat.eqb (humanScore tl) 0 && (0 <? aiScore tl))
     || (humanScore tl <? aiScore tl)
        && PrimFloat.eqb (final_confidence tl) 0.95)
    && (negb (PrimFloat.eqb (aiScore tl) 0 && (0 <? humanScore tl))
        || negb (humanScore tl <? aiScore tl)
           && PrimFloat.eqb (final_confidence tl) 0.95))
  = true.
Proof. vm_compute. reflexivity. Qed.

(** X12: a line whose triggered rules all point the same way gets the confidence
    0.95, whatever their weights: with a human score of 0 and an AI score
    above 0 the verdict is AI at 0.95, and with an AI score of 0 and a human
    score above 0 it is human at 0.95. *)
Theorem one_sided_line_is_capped reg content language reg' tl line :
  well_formed reg ->
  score_line reg content language = (reg', Normal tl) ->
  (PrimFloat.eqb (humanScore tl) 0 = true -> (0 <? aiScore tl) = true ->
   isAI (verdict line tl) = true
   /\ PrimFloat.eqb (confidence (verdict line tl)) 0.95 = true)
  /\ (PrimFloat.eqb (aiScore tl) 0 = true -> (0 <? humanScore tl) = true ->
      isAI (verdict line tl) = false
      /\ PrimFloat.eqb (confidence (verdict line tl)) 0.95 = true).
Proof.
  intros Hwf Hs.
  pose proof (score_line_checked _ _ _ _ _ _ one_sided_evidence Hwf Hs) as Hc.
  cbv beta in Hc. apply andb_prop in Hc as [Ha Hh].
  cbn [verdict isAI confidence]. split; intros H0 Hpos.
  - rewrite H0, Hpos in Ha. cbn [andb negb orb] in Ha.
    now apply andb_prop in Ha.
  - rewrite H0, Hpos in Hh. cbn [andb negb orb] in Hh.
    apply andb_prop in Hh as [Hn Hc]. apply negb_true_iff in Hn. now split.
Qed.

Lemma one_sided_line_is_capped_witness :
  exists reg' tl,
    score_line initial (str "function f() {") (str "javascript")
    = (reg', Normal tl)
    /\ PrimFloat.eqb (humanScore tl) 0 = true
    /\ (0 <? aiScore tl) = true
    /\ PrimFloat.eqb (confidence (verdict (str "function f() {") tl)) 0.95
       = true.
Proof.
  assert (E : exists reg' tl,
            score_line initial (str "function f() {") (str "javascript")
            = (reg', Normal tl)
            /\ PrimFloat.eqb (humanScore tl) 0 = true
            /\ (0 <? aiScore tl) = true)
    by (eexists; eexists; split; [vm_compute; reflexivity|];
        split; vm_compute; reflexivity).
  destruct E as (reg' & tl & E & H0 & Hpos). exists reg', tl.
  split; [exact E|]. split; [exact H0|]. split; [exact Hpos|].
  destruct (one_sided_line_is_capped _ _ _ _ _ (str "function f() {")
              initial_well_formed E) as [Ha _].
  exact (proj2 (Ha H0 Hpos)).
Defined.

(** ** White space around a line *)

Lemma drop_space_app_space ws s :
  all_space ws -> drop_space (ws ++ s) = drop_space s.
Proof.
  induction 1 as [|c ws Hc _ IH]; [reflexivity|].
  cbn [app drop_space]. now rewrite Hc.
Qed.

Lemma drop_space_app s t :
  drop_space s <> [] -> drop_space (s ++ t) = drop_space s ++ t.
Proof.
  induction s as [|c s IH]; cbn [app drop_space]; [congruence|].
  destruct (is_space c); [exact IH|reflexivity].
Qed.

Lemma all_space_rev ws : all_space ws -> all_space (rev ws).
Proof. apply Forall_rev. Qed.

(** [trim] takes the white space at both ends away. *)
Lemma trim_padded ws1 s ws2 :
  all_space ws1 -> all_space ws2 -> trim (ws1 ++ s ++ ws2) = trim s.
Proof.
  intros H1 H2. unfold trim. rewrite (drop_space_app_space _ _ H1).
  destruct (drop_space s) as [|c r] eqn:E.
  - rewrite (drop_space_app_space s ws2 (drop_space_nil _ E)).
    now rewrite (drop_space_all_space _ H2).
  - rewrite drop_space_app by congruence. rewrite E, rev_app_distr.
    now rewrite (drop_space_app_space _ _ (all_space_rev _ H2)).
Qed.

(** X13: in a given state, the indentation of a line, the white space at its end
    and its number change nothing of its verdict but the stored line, and
    nothing of the state it leaves. *)
Theorem padding_keeps_verdict reg line n n' language ws1 ws2 :
  all_space ws1 -> all_space ws2 ->
  match analyzeLine reg (ws1 ++ line ++ ws2) n language,
        analyzeLine reg line n' language with
  | (reg1, Normal a), (reg2, Normal b) => reg1 = reg2 /\ same_verdict a b
  | (reg1, Throw _), (reg2, Throw _) => reg1 = reg2
  | _, _ => False
  end.
Proof.
  intros H1 H2. unfold analyzeLine. rewrite (trim_padded _ _ _ H1 H2).
  destruct (negb (truthy (trim line))).
  - split; [reflexivity|]. repeat split.
  - destruct (score_line reg (trim line) language) as [reg1 [tl|e]];
      [|reflexivity].
    split; [reflexivity|]. repeat split.
Qed.

Lemma padding_keeps_verdict_witness :
  all_space (str "    ") /\ all_space (str " ")
  /\ match analyzeLine initial (str "    " ++ str "x = x;" ++ str " ") 7
             (str "javascript"),
           analyzeLine initial (str "x = x;") 1 (str "javascript") with
     | (reg1, Normal a), (reg2, Normal b) => reg1 = reg2 /\ same_verdict a b
     | (reg1, Throw _), (reg2, Throw _) => reg1 = reg2
     | _, _ => False
     end.
Proof.
  assert (H1 : all_space (str "    ")) by (repeat constructor).
  assert (H2 : all_space (str " ")) by (repeat constructor).
  split; [exact H1|]. split; [exact H2|].
  exact (padding_keeps_verdict initial (str "x = x;") 7 1 (str "javascript")
           _ _ H1 H2).
Defined.

(** ** Where the tests leave lastIndex *)

Lemma test_lastIndex re s :
  global re = true ->
  (lastIndex (snd (test re s)) <= List.length s)%nat
  /\ (fst (test re s) = false -> lastIndex (snd (test re s)) = 0%nat).
Proof.
  intros Hg. unfold test. rewrite Hg.
  destruct (exec_from re s (lastIndex re)) as [[b e]|] eqn:E; cbn.
  - apply exec_from_bounds in E. split; [lia|discriminate].
  - split; [lia|reflexivity].
Qed.

Lemma apply_patterns_lastIndex pats content tl :
  Forall (fun p => global (pattern p) = true) pats ->
  Forall2 (fun hit p =>
             (lastIndex (pattern p) <= List.length content)%nat
             /\ (hit = false -> lastIndex (pattern p) = 0%nat))
    (hits pats content) (fst (apply_patterns pats content tl)).
Proof.
  intros H. revert tl; induction H as [|p r Hp _ IH]; intros tl;
    cbn [hits map apply_patterns]; [constructor|].
  pose proof (test_lastIndex (pattern p) content Hp) as Ht.
  destruct (test (pattern p) content) as [hit re].
  specialize (IH (if hit then record_match p tl else tl)).
  destruct (apply_patterns r content _) as [r' tl'].
  cbn [fst snd] in *. constructor; [exact Ht|exact IH].
Qed.

Lemma well_formed_global reg :
  well_formed reg ->
  Forall (fun p => global (pattern p) = true) (AI_PATTERNS reg).
Proof.
  intros [Hg _].
  assert (H : Forall (fun p => global (pattern p) = true)
                (map rewind (AI_PATTERNS reg)))
    by (rewrite Hg; repeat constructor).
  rewrite Forall_map in H. exact H.
Qed.

(** X14: after a line that is not blank is scored, the [lastIndex] of every
    general pattern is at most the length of the trimmed line, and it is 0
    for every pattern that did not match: only a pattern that matched the
    line starts its next test further than at the start. *)
Theorem lastIndex_after_a_line reg content language reg' out :
  well_formed reg ->
  score_line reg content language = (reg', out) ->
  Forall2 (fun hit p =>
             (lastIndex (pattern p) <= List.length content)%nat
             /\ (hit = false -> lastIndex (pattern p) = 0%nat))
    (hits (AI_PATTERNS reg) content) (AI_PATTERNS reg').
Proof.
  intros Hwf. unfold score_line.
  pose proof (apply_patterns_lastIndex (AI_PATTERNS reg) content
                (mkTally 0 0 []) (well_formed_global _ Hwf)) as H.
  destruct (apply_patterns (AI_PATTERNS reg) content _) as [general tl].
  cbn [fst] in H.
  destruct (or_empty_array _) as [pats|].
  - destruct (apply_patterns pats content tl) as [pats' tl'].
    now intros [= <- _].
  - now intros [= <- _].
Qed.

Lemma lastIndex_after_a_line_witness :
  exists reg' out,
    score_line initial (str "// TODO: fix this hack later")
      (str "javascript") = (reg', out)
    /\ Forall (fun p => (lastIndex (pattern p) <= 28)%nat) (AI_PATTERNS reg').
Proof.
  assert (E : exists reg' out,
            score_line initial (str "// TODO: fix this hack later")
              (str "javascript") = (reg', out))
    by (eexists; eexists; vm_compute; reflexivity).
  destruct E as (reg' & out & E). exists reg', out. split; [exact E|].
  pose proof (lastIndex_after_a_line _ _ _ _ _ initial_well_formed E) as H.
  eapply (Forall2_Forall_r _ _ _ _ _ H).
  Unshelve. intros hit p [Hle _]. exact Hle.
Defined.

(** ** One line that counts *)

Lemma single_confidence :
  every_tally (fun tl =>
    forallb (fun c => PrimFloat.eqb ((0 + c) / Number.of_nat 1) c)
      (confidences tl)) = true.
Proof. vm_compute. reflexivity. Qed.

(** X15: when one line of the code counts, the overall confidence of the report
    is the confidence of the verdict of that line. *)
Theorem single_line_overall reg code language reg' r :
  well_formed reg -> analyzeCode reg code language = (reg', Normal r) ->
  totalLines r = 1%nat ->
  exists a,
    filter non_blank (lineAnalysis r) = [a]
    /\ PrimFloat.eqb (overallConfidence r) (confidence a) = true.
Proof.
  intros Hwf H Hone.
  pose proof (analyzeCode_verdicts _ _ _ _ _ Hwf H) as Hv.
  destruct (analyzeCode_report _ _ _ _ _ H) as (out & _ & ->).
  unfold summarize in *.
  cbn [totalLines overallConfidence lineAnalysis] in *. fold non_blank in *.
  destruct (filter non_blank out) as [|a [|b l]] eqn:Hf; try discriminate.
  exists a. split; [reflexivity|]. cbn [List.length Nat.ltb Nat.leb fold_left].
  assert (Hin : In a (filter non_blank out)) by (rewrite Hf; now left).
  apply filter_In in Hin as [Hin Hnb].
  assert (Ha : forall lines vs,
            Forall2 (line_verdict (analyzeCodeStructure code) language)
              lines vs ->
            In a vs ->
            exists line, line_verdict (analyzeCodeStructure code) language
                           line a).
  { intros lines vs HF. induction HF as [|x y xs ys Hxy _ IH];
      intros Hy; [contradiction|].
    destruct Hy as [->|Hy]; [now exists x|exact (IH Hy)]. }
  destruct (Ha _ _ Hv Hin) as [line Hl].
  apply (line_verdict_confidence
           (fun c => PrimFloat.eqb ((0 + c) / Number.of_nat 1) c)
           _ _ _ _ single_confidence Hl).
  rewrite (line_verdict_non_blank _ _ _ _ Hl) in Hnb.
  now apply negb_true_iff in Hnb.
Qed.

Lemma single_line_overall_witness :
  exists reg' r,
    analyzeCode initial (text [""; "  x = x;"; ""]) (str "python")
    = (reg', Normal r)
    /\ totalLines r = 1%nat
    /\ exists a,
         filter non_blank (lineAnalysis r) = [a]
         /\ PrimFloat.eqb (overallConfidence r) (confidence a) = true.
Proof.
  assert (E : exists reg' r,
            analyzeCode initial (text [""; "  x = x;"; ""]) (str "python")
            = (reg', Normal r) /\ totalLines r = 1%nat)
    by (eexists; eexists; split; vm_compute; reflexivity).
  destruct E as (reg' & r & E & Hone). exists reg', r.
  split; [exact E|]. split; [exact Hone|].
  exact (single_line_overall _ _ _ _ _ initial_well_formed E Hone).
Defined.

(** ** Line comments *)





Lemma char_step ic ml (a : cu) e b c r caps k :
  run_with ic ml 0 (Class false (CChar a)) (MState e b (c :: r) caps) k
  = if (a =? c)%N || ic && (a =? swap_case c)%N
    then k (MState (S e) (Some c) r caps) else None.
Proof. reflexivity. Qed.









(** ** The indentation loop *)

Lemma startsWith_refl s : startsWith s s = true.
Proof.
  induction s as [|c s IH]; [reflexivity|].
  cbn [startsWith]. now rewrite N.eqb_refl.
Qed.

Lemma indentation_step_fixed pat cnt line :
  truthy pat = true ->
  indentation_step (pat, cnt) line
  = (pat, if fits_indent pat line then S cnt else cnt).
Proof.
  intros Hp. unfold indentation_step, fits_indent. rewrite Hp. cbn [negb andb].
  destruct (JsString.eqb (indent_of line) pat) eqn:E; cbn [orb].
  - apply JsString_eqb_eq in E. rewrite E, startsWith_refl.
    now rewrite orb_true_r.
  - now destruct (JsString.eqb (indent_of line) [] || _).
Qed.

Lemma indentation_loop_fixed pat lines :
  truthy pat = true ->
  forall cnt,
    fold_left indentation_step lines (pat, cnt)
    = (pat, (cnt + List.length (filter (fits_indent pat) lines))%nat).
Proof.
  intros Hp. induction lines as [|line r IH]; intros cnt; cbn [fold_left filter].
  - now rewrite Nat.add_0_r.
  - rewrite (indentation_step_fixed _ _ _ Hp).
    destruct (fits_indent pat line); rewrite IH; cbn [List.length]; f_equal;
      lia.
Qed.

Lemma indentation_loop lines :
  forall cnt,
    fold_left indentation_step lines ([], cnt)
    = (reference_indent lines,
       (cnt + List.length (filter (fits_indent (reference_indent lines))
                             lines))%nat).
Proof.
  induction lines as [|line r IH]; intros cnt.
  - cbn. now rewrite Nat.add_0_r.
  - cbn [fold_left]. unfold indentation_step at 2.
    unfold reference_indent. cbn [map filter negb truthy andb].
    destruct (truthy (indent_of line)) eqn:Ht.
    + cbn [hd]. rewrite (proj2 (JsString_eqb_eq _ _) eq_refl). cbn [orb].
      rewrite (indentation_loop_fixed _ _ Ht).
      unfold fits_indent at 2. rewrite startsWith_refl, orb_true_r.
      cbn [List.length]. f_equal. lia.
    + destruct (indent_of line) as [|c i] eqn:Ei; [|discriminate].
      cbn [JsString.eqb orb]. rewrite IH. unfold reference_indent.
      unfold fits_indent at 2. rewrite Ei. cbn [JsString.eqb orb List.length].
      f_equal. lia.
Qed.

(** X17: the count of the indentation loop is the number of lines that
    count which have no indentation or whose indentation starts with the
    reference, the first indentation that is not empty; so it is at most the
    number of those lines. *)
Theorem indentation_count code :
  consistent_indentation code
  = List.length
      (filter (fits_indent (reference_indent (non_blank_lines code)))
         (non_blank_lines code))
  /\ (consistent_indentation code <= List.length (non_blank_lines code))%nat.
Proof.
  unfold consistent_indentation. rewrite indentation_loop. cbn [snd Nat.add].
  split; [reflexivity|apply filter_length_le].
Qed.
